(** * Client-side resource registry of the feature store

    A shallow embedding of [ff/serving/client/resources.py]: the resource
    value classes, the configuration classes of a provider, the
    [ResourceState] registry ([add], [sorted_list], [create_all]) and the
    exceptions they raise.

    Conventions of the embedding.
    - A Python [str] that the module only compares, concatenates or passes
      on is a [string]; each character is a code point below 256 and
      strings compare by code point, as Python compares them.  The fields
      of a Snowflake configuration, whose characters are written into the
      payload, are of type [str]: sequences of code points of the whole
      range of Python, below 0x110000.
    - A Python [int] is a [Z].
    - A call that may raise returns a [result]; code that also touches
      mutable state runs in the monad [M S], which threads the state and
      stops at the first exception.
    - A class is a module holding its record of fields and its methods. *)

From Stdlib Require Import List String Ascii ZArith NArith Lia Bool Eqdep_dec.
From Stdlib Require Import Strings.Byte.
From Stdlib Require Import Permutation Sorted OrdersEx RelationClasses.
Import ListNotations.
Local Open Scope string_scope.

Set Implicit Arguments.

(** ** Exceptions and results *)

(** The status codes of gRPC ([grpc.StatusCode]). *)
Inductive StatusCode : Type :=
| OK | CANCELLED | UNKNOWN | INVALID_ARGUMENT | DEADLINE_EXCEEDED | NOT_FOUND
| ALREADY_EXISTS | PERMISSION_DENIED | RESOURCE_EXHAUSTED
| FAILED_PRECONDITION | ABORTED | OUT_OF_RANGE | UNIMPLEMENTED | INTERNAL
| UNAVAILABLE | DATA_LOSS | UNAUTHENTICATED.

(** The exceptions of the module.  [AttributeError cls attr] is Python's
    "'cls' object has no attribute 'attr'"; [InactiveRpcError] is
    [grpc._channel._InactiveRpcError], which a stub raises for a call that
    ended with a status other than [OK]; [OtherException] stands for any
    exception of another class. *)
Inductive exn : Type :=
| ValueError (msg : string)
| AttributeError (cls attr : string)
| KeyError (key : string)
| ResourceRedefinedError (msg : string)
| InactiveRpcError (code : StatusCode)
| OtherException (msg : string).

Inductive result (A : Type) : Type :=
| Ok (a : A)
| Raise (e : exn).

Arguments Ok {A} a.
Arguments Raise {A} e.

Definition is_Ok {A} (r : result A) : bool :=
  match r with Ok _ => true | Raise _ => false end.

(** ** The state-and-exception monad *)

Definition M (S A : Type) : Type := S -> result A * S.

Definition ret {S A} (a : A) : M S A := fun s => (Ok a, s).

Definition raise {S A} (e : exn) : M S A := fun s => (Raise e, s).

Definition bind {S A B} (m : M S A) (k : A -> M S B) : M S B :=
  fun s => match m s with
           | (Ok a, s') => k a s'
           | (Raise e, s') => (Raise e, s')
           end.

Definition lift {S A} (r : result A) : M S A := fun s => (r, s).

Definition get {S} : M S S := fun s => (Ok s, s).

Definition put {S} (s : S) : M S unit := fun _ => (Ok tt, s).

Notation "x <- m ;; k" := (bind m (fun x => k))
  (at level 61, m at next level, right associativity).
Notation "m ;;; k" := (bind m (fun _ => k))
  (at level 61, right associativity).

(** ** Python strings whose characters are encoded

    A character of a Python [str] is a code point below 0x110000;
    surrogate code points may occur in a [str]. *)

Record codepoint : Type := mkcodepoint {
  code : N;
  code_range : (code <? 0x110000)%N = true }.

Definition str : Type := list codepoint.

(** The code point of a number; numbers out of range are not code points
    and are sent to 0. *)
Definition codepoint_of_N (n : N) : codepoint :=
  match (n <? 0x110000)%N as b
        return (n <? 0x110000)%N = b -> codepoint with
  | true => fun H => mkcodepoint n H
  | false => fun _ => mkcodepoint 0 eq_refl
  end eq_refl.

(** A string literal of the source as a [str]. *)
Fixpoint str_of_string (s : string) : str :=
  match s with
  | EmptyString => []
  | String a s' => codepoint_of_N (N_of_ascii a) :: str_of_string s'
  end.

(** ** [json.dumps] on a dict of strings, and [bytes(_, "utf-8")]

    [SnowflakeConfig.serialize] calls [json.dumps] on a dict whose keys and
    values are strings, with the default options ([ensure_ascii] set, item
    separator [", "], key separator [": "]), and encodes the text as UTF-8.
    The definitions follow [json.encoder]: [ESCAPE_ASCII] selects the
    characters to replace, [ESCAPE_DCT] holds the short escapes and the
    escapes of the control characters, any other selected character below
    0x10000 becomes one [\uXXXX] escape, and a character from 0x10000 the
    two escapes of its surrogate pair.  The text written holds characters
    between space and tilde only; it is a [string]. *)

Definition dquote : ascii := "034"%char.
Definition backslash : ascii := "092"%char.

(** One digit of the lower-case hexadecimal notation. *)
Definition hex_digit (d : N) : ascii :=
  if (d <? 10)%N then ascii_of_N (48 + d) else ascii_of_N (87 + d).

(** ['{0:04x}'.format(n)] for [n < 0x10000]. *)
Definition format_04x (n : N) : string :=
  String (hex_digit (n / 4096 mod 16))
    (String (hex_digit (n / 256 mod 16))
       (String (hex_digit (n / 16 mod 16))
          (String (hex_digit (n mod 16)) EmptyString))).

Definition ESCAPE_DCT (c : codepoint) : option string :=
  let n := code c in
  if (n =? 92)%N then Some (String backslash (String backslash EmptyString))
  else if (n =? 34)%N then Some (String backslash (String dquote EmptyString))
  else if (n =? 8)%N then Some (String backslash "b")
  else if (n =? 12)%N then Some (String backslash "f")
  else if (n =? 10)%N then Some (String backslash "n")
  else if (n =? 13)%N then Some (String backslash "r")
  else if (n =? 9)%N then Some (String backslash "t")
  else if (n <? 32)%N then Some (String backslash ("u" ++ format_04x n))
  else None.

(** The pattern of [ESCAPE_ASCII]: a backslash, a double quote, or any
    character outside the range from space to tilde. *)
Definition ESCAPE_ASCII (c : codepoint) : bool :=
  let n := code c in
  (n =? 92)%N || (n =? 34)%N || (n <? 32)%N || (126 <? n)%N.

Definition replace (c : codepoint) : string :=
  match ESCAPE_DCT c with
  | Some s => s
  | None =>
      let n := code c in
      if (n <? 0x10000)%N then String backslash ("u" ++ format_04x n)
      else
        let n := (n - 0x10000)%N in
        let s1 := N.lor 0xd800 (N.land (N.shiftr n 10) 0x3ff) in
        let s2 := N.lor 0xdc00 (N.land n 0x3ff) in
        String backslash ("u" ++ format_04x s1)
          ++ String backslash ("u" ++ format_04x s2)
  end.

Fixpoint escape_sub (s : str) : string :=
  match s with
  | [] => EmptyString
  | c :: s' =>
      (if ESCAPE_ASCII c then replace c
       else String (ascii_of_N (code c)) EmptyString)
        ++ escape_sub s'
  end.

Definition py_encode_basestring_ascii (s : str) : string :=
  String dquote (escape_sub s ++ String dquote EmptyString).

(** [sep.join(l)]. *)
Fixpoint join (sep : string) (l : list string) : string :=
  match l with
  | [] => EmptyString
  | [x] => x
  | x :: l' => x ++ sep ++ join sep l'
  end.

(** A dict literal with string keys and values, in the order of its items. *)
Definition json_item (kv : str * str) : string :=
  py_encode_basestring_ascii (fst kv) ++ ": "
    ++ py_encode_basestring_ascii (snd kv).

Definition json_dumps (d : list (str * str)) : string :=
  "{" ++ join ", " (map json_item d) ++ "}".

Definition bytes : Type := list byte.

Definition byte_of_code (n : N) : byte := byte_of_ascii (ascii_of_N n).

(** UTF-8 of one code point below 256: one byte below 128, two from there. *)
Definition utf8_char (c : ascii) : bytes :=
  let n := N_of_ascii c in
  if (n <? 128)%N then [byte_of_ascii c]
  else [byte_of_code (192 + n / 64); byte_of_code (128 + n mod 64)].

Fixpoint utf8 (s : string) : bytes :=
  match s with
  | EmptyString => []
  | String c s' => (utf8_char c ++ utf8 s')%list
  end.

(** ** Resource model *)

Definition NameVariant : Type := string * string.

Definition valid_name_variant (nvar : NameVariant) : bool :=
  negb (fst nvar =? EmptyString) && negb (snd nvar =? EmptyString).

Module RedisConfig.
Record t : Type := mk { host : string; port : Z; password : string; db : Z }.
Definition software (self : t) : string := "redis".
End RedisConfig.

Module PostgresConfig.
Record t : Type := mk {
  host : string; port : Z; database : string; user : string;
  password : string }.
Definition software (self : t) : string := "postgres".
End PostgresConfig.

Module SnowflakeConfig.
Record t : Type := mk {
  account : str; database : str; organization : str;
  username : str; password : str; schema : str }.
Definition software (self : t) : string := "Snowflake".
Definition type (self : t) : string := "SNOWFLAKE_OFFLINE".
Definition config (self : t) : list (str * str) :=
  [ (str_of_string "Username", username self);
    (str_of_string "Password", password self);
    (str_of_string "Organization", organization self);
    (str_of_string "Account", account self);
    (str_of_string "Database", database self) ].
Definition serialize (self : t) : bytes := utf8 (json_dumps (config self)).
End SnowflakeConfig.

Inductive Config : Type :=
| Redis (c : RedisConfig.t)
| Snowflake (c : SnowflakeConfig.t)
| Postgres (c : PostgresConfig.t).

(** Method calls on a [Config] value: every class has [software], only
    [SnowflakeConfig] has [type] and [serialize]. *)
Definition Config_class (c : Config) : string :=
  match c with
  | Redis _ => "RedisConfig"
  | Snowflake _ => "SnowflakeConfig"
  | Postgres _ => "PostgresConfig"
  end.

Definition Config_software (c : Config) : string :=
  match c with
  | Redis c => RedisConfig.software c
  | Snowflake c => SnowflakeConfig.software c
  | Postgres c => PostgresConfig.software c
  end.

Definition Config_type (c : Config) : result string :=
  match c with
  | Snowflake c => Ok (SnowflakeConfig.type c)
  | _ => Raise (AttributeError (Config_class c) "type")
  end.

Definition Config_serialize (c : Config) : result bytes :=
  match c with
  | Snowflake c => Ok (SnowflakeConfig.serialize c)
  | _ => Raise (AttributeError (Config_class c) "serialize")
  end.

(** The wire messages of [metadata_pb2] that the module builds, with the
    fields it sets. *)
Module pb.
Record User : Type := mkUser { User_name : string }.
Record Provider : Type := mkProvider {
  Provider_name : string; Provider_description : string;
  Provider_type : string; Provider_software : string;
  Provider_team : string; Provider_serialized_config : bytes }.
Record PrimarySQLTable : Type := mkPrimarySQLTable { table_name : string }.
Record PrimaryData : Type := mkPrimaryData { table : PrimarySQLTable }.
Record SQLTransformation : Type := mkSQLTransformation { query : string }.
Record Transformation : Type :=
  mkTransformation { SQLTransformation_field : SQLTransformation }.
Inductive definition : Type :=
| primaryData (m : PrimaryData)
| transformation (m : Transformation).
Record SourceVariant : Type := mkSourceVariant {
  SourceVariant_name : string; SourceVariant_variant : string;
  SourceVariant_owner : string; SourceVariant_description : string;
  SourceVariant_provider : string; SourceVariant_definition : definition }.
End pb.

(** ** The remote stub

    A call on the stub sends one request.  The stub answers from the
    requests it has received so far and the new one: it returns, or it
    raises an exception.  The world records the requests sent and the lines
    printed. *)

Inductive request : Type :=
| CreateUser (m : pb.User)
| CreateProvider (m : pb.Provider)
| CreateSourceVariant (m : pb.SourceVariant).

Definition Stub : Type := list request -> request -> option exn.

Record World : Type := mkWorld { calls : list request; stdout : list string }.

Definition call (stub : Stub) (q : request) : M World unit :=
  fun w =>
    (match stub (calls w) q with None => Ok tt | Some e => Raise e end,
     mkWorld (calls w ++ [q]) (stdout w)).

(** [print(a, b)]: the two arguments separated by one space, on a line. *)
Definition print (a b : string) : M World unit :=
  fun w => (Ok tt, mkWorld (calls w) (stdout w ++ [a ++ " " ++ b])).

Module Provider.
Record t : Type := mk {
  name : string; function : string; config : Config;
  description : string; team : string }.
Definition software (self : t) : string := Config_software (config self).
Definition type : string := "provider".
Definition _create (self : t) (stub : Stub) : M World unit :=
  type_ <- lift (Config_type (config self)) ;;
  serialized_config <- lift (Config_serialize (config self)) ;;
  let serialized :=
    pb.mkProvider (name self) (description self) type_
      (Config_software (config self)) (team self) serialized_config in
  call stub (CreateProvider serialized).
End Provider.

Module User.
Record t : Type := mk { name : string }.
Definition type (self : t) : string := "user".
Definition _create (self : t) (stub : Stub) : M World unit :=
  let serialized := pb.mkUser (name self) in
  call stub (CreateUser serialized).
End User.

Module SQLTable.
Record t : Type := mk { name : string }.
End SQLTable.

Definition Location : Type := SQLTable.t.

Module PrimaryData.
Record t : Type := mk { location : Location }.
Definition kwargs (self : t) : pb.definition :=
  pb.primaryData
    (pb.mkPrimaryData (pb.mkPrimarySQLTable (SQLTable.name (location self)))).
End PrimaryData.

Module SQLTransformation.
Record t : Type := mk { query : string }.
Definition kwargs (self : t) : pb.definition :=
  pb.transformation (pb.mkTransformation (pb.mkSQLTransformation (query self))).
End SQLTransformation.

(** A source definition is a [PrimaryData], an instance of the base class
    [Transformation], which has no [kwargs], or a [SQLTransformation]. *)
Inductive SourceDefinition : Type :=
| DefPrimaryData (d : PrimaryData.t)
| DefTransformation
| DefSQLTransformation (d : SQLTransformation.t).

Definition SourceDefinition_kwargs (d : SourceDefinition)
  : result pb.definition :=
  match d with
  | DefPrimaryData d => Ok (PrimaryData.kwargs d)
  | DefTransformation => Raise (AttributeError "Transformation" "kwargs")
  | DefSQLTransformation d => Ok (SQLTransformation.kwargs d)
  end.

Module Source.
Record t : Type := mk {
  name : string; variant : string; definition : SourceDefinition;
  owner : string; provider : string; description : string }.
Definition type : string := "source".
Definition _create (self : t) (stub : Stub) : M World unit :=
  defArgs <- lift (SourceDefinition_kwargs (definition self)) ;;
  let serialized :=
    pb.mkSourceVariant (name self) (variant self) (owner self)
      (description self) (provider self) defArgs in
  call stub (CreateSourceVariant serialized).
End Source.

Module Entity.
Record t : Type := mk { name : string; description : string }.
Definition type : string := "entity".
End Entity.

Module ResourceColumnMapping.
Record t : Type := mk { entity : string; value : string; timestamp : string }.
End ResourceColumnMapping.

Definition ResourceLocation : Type := ResourceColumnMapping.t.

Module Feature.
Record t : Type := mk {
  name : string; variant : string; value_type : string; entity : string;
  owner : string; provider : string; description : string;
  location : ResourceLocation }.
Definition type : string := "feature".
End Feature.

Module Label.
Record t : Type := mk {
  name : string; variant : string; value_type : string; entity : string;
  owner : string; description : string; location : ResourceLocation }.
Definition type : string := "label".
End Label.

Module TrainingSet.
Record t : Type := mk {
  name : string; variant : string; owner : string; label : NameVariant;
  features : list NameVariant; description : string }.

(** The loop of [__post_init__] over the features. *)
Fixpoint check_features (l : list NameVariant) : result unit :=
  match l with
  | [] => Ok tt
  | feature :: l' =>
      if negb (valid_name_variant feature) then
        Raise (ValueError "Invalid Feature")
      else check_features l'
  end.

Definition __post_init__ (self : t) : result unit :=
  if negb (valid_name_variant (label self)) then
    Raise (ValueError "Label must be set")
  else if (List.length (features self) =? 0)%nat then
    Raise (ValueError "A training-set must have atleast one feature")
  else check_features (features self).

(** The constructor [TrainingSet(...)]: the dataclass stores the fields and
    runs [__post_init__]; the object exists only when that returns. *)
Definition new (name variant owner : string) (label : NameVariant)
  (features : list NameVariant) (description : string) : result t :=
  let self := mk name variant owner label features description in
  match __post_init__ self with
  | Ok _ => Ok self
  | Raise e => Raise e
  end.

Definition type : string := "training-set".
End TrainingSet.

(** The union [Resource]. *)
Inductive Resource : Type :=
| RPrimaryData (r : PrimaryData.t)
| RProvider (r : Provider.t)
| REntity (r : Entity.t)
| RUser (r : User.t)
| RFeature (r : Feature.t)
| RLabel (r : Label.t)
| RTrainingSet (r : TrainingSet.t)
| RSource (r : Source.t).

Definition Resource_class (resource : Resource) : string :=
  match resource with
  | RPrimaryData _ => "PrimaryData"
  | RProvider _ => "Provider"
  | REntity _ => "Entity"
  | RUser _ => "User"
  | RFeature _ => "Feature"
  | RLabel _ => "Label"
  | RTrainingSet _ => "TrainingSet"
  | RSource _ => "Source"
  end.

(** [resource.type()]: [PrimaryData] has no such method. *)
Definition Resource_type (resource : Resource) : result string :=
  match resource with
  | RPrimaryData _ => Raise (AttributeError "PrimaryData" "type")
  | RProvider _ => Ok Provider.type
  | REntity _ => Ok Entity.type
  | RUser r => Ok (User.type r)
  | RFeature _ => Ok Feature.type
  | RLabel _ => Ok Label.type
  | RTrainingSet _ => Ok TrainingSet.type
  | RSource _ => Ok Source.type
  end.

(** [resource.name]: [PrimaryData] has no such field. *)
Definition Resource_name (resource : Resource) : result string :=
  match resource with
  | RPrimaryData _ => Raise (AttributeError "PrimaryData" "name")
  | RProvider r => Ok (Provider.name r)
  | REntity r => Ok (Entity.name r)
  | RUser r => Ok (User.name r)
  | RFeature r => Ok (Feature.name r)
  | RLabel r => Ok (Label.name r)
  | RTrainingSet r => Ok (TrainingSet.name r)
  | RSource r => Ok (Source.name r)
  end.

(** [resource.variant] where [hasattr(resource, 'variant')] holds. *)
Definition Resource_variant (resource : Resource) : option string :=
  match resource with
  | RFeature r => Some (Feature.variant r)
  | RLabel r => Some (Label.variant r)
  | RTrainingSet r => Some (TrainingSet.variant r)
  | RSource r => Some (Source.variant r)
  | _ => None
  end.

(** [resource._create(stub)]: only [Provider], [User] and [Source] define
    the method. *)
Definition Resource__create (resource : Resource) (stub : Stub)
  : M World unit :=
  match resource with
  | RProvider r => Provider._create r stub
  | RUser r => User._create r stub
  | RSource r => Source._create r stub
  | _ => raise (AttributeError (Resource_class resource) "_create")
  end.

Definition rbind {A B} (r : result A) (k : A -> result B) : result B :=
  match r with
  | Ok a => k a
  | Raise e => Raise e
  end.

Notation "x <~ r ;; k" := (rbind r (fun x => k))
  (at level 61, r at next level, right associativity).

(** The constructor of [ResourceRedefinedError]; it returns the exception
    to raise. *)
Definition ResourceRedefinedError_new (resource : Resource) : result exn :=
  let variantStr :=
    match Resource_variant resource with
    | Some variant => " variant " ++ variant
    | None => EmptyString
    end in
  name <~ Resource_name resource ;;
  let resourceId := name ++ variantStr in
  type_ <~ Resource_type resource ;;
  Ok (ResourceRedefinedError
        (type_ ++ " resource " ++ resourceId ++ " defined in multiple places")).

(** ** Python containers used by the registry *)

(** A dict keeps its items in the order their keys were first inserted. *)
Section Dict.
Variables K V : Type.
Variable eqb : K -> K -> bool.

Definition dict : Type := list (K * V).

Fixpoint dict_contains (k : K) (d : dict) : bool :=
  match d with
  | [] => false
  | (k', _) :: d' => eqb k k' || dict_contains k d'
  end.

Fixpoint dict_getitem (k : K) (d : dict) : option V :=
  match d with
  | [] => None
  | (k', v) :: d' => if eqb k k' then Some v else dict_getitem k d'
  end.

Fixpoint dict_setitem (k : K) (v : V) (d : dict) : dict :=
  match d with
  | [] => [(k, v)]
  | (k', v') :: d' =>
      if eqb k k' then (k', v) :: d' else (k', v') :: dict_setitem k v d'
  end.

Definition dict_keys (d : dict) : list K := map fst d.

Definition dict_values (d : dict) : list V := map snd d.
End Dict.

(** The sort key of [sorted_list] and Python's order on such tuples: the
    first components that differ decide. *)
Definition sort_key : Type := Z * string * string.

Definition sort_key_ltb (a b : sort_key) : bool :=
  let '(n1, s1, v1) := a in
  let '(n2, s2, v2) := b in
  if negb (n1 =? n2)%Z then (n1 <? n2)%Z
  else if negb (s1 =? s2) then String.ltb s1 s2
  else String.ltb v1 v2.

(** [sorted(l, key=key)]: the keys are computed first, one per element and
    in order; the sort is stable and compares keys with [<] only. *)
Section Sorted.
Variable A : Type.
Variable key : A -> result sort_key.

Fixpoint decorate (l : list A) : result (list (sort_key * A)) :=
  match l with
  | [] => Ok []
  | x :: l' =>
      k <~ key x ;;
      d <~ decorate l' ;;
      Ok ((k, x) :: d)
  end.

Fixpoint insert (x : sort_key * A) (l : list (sort_key * A))
  : list (sort_key * A) :=
  match l with
  | [] => [x]
  | y :: l' =>
      if sort_key_ltb (fst y) (fst x) then y :: insert x l'
      else x :: y :: l'
  end.

Definition stable_sort (l : list (sort_key * A)) : list (sort_key * A) :=
  fold_right insert [] l.

Definition sorted (l : list A) : result (list A) :=
  d <~ decorate l ;;
  Ok (map snd (stable_sort d)).
End Sorted.

(** [try: body except grpc._channel._InactiveRpcError as e: handler]. *)
Definition try_except_InactiveRpcError {S A} (body handler : M S A) : M S A :=
  fun s =>
    match body s with
    | (Raise (InactiveRpcError _), s') => handler s'
    | r => r
    end.

(** ** The registry *)

Module ResourceState.

Definition key : Type := string * string.

Definition key_eqb (a b : key) : bool :=
  (fst a =? fst b) && (snd a =? snd b).

Record t : Type := mk {
  __state : dict key Resource;
  __create_list : list Resource }.

Definition __init__ : t := mk [] [].

(** The key [(resource.type(), resource.name)] of [add]. *)
Definition identity_key (resource : Resource) : result key :=
  type_ <~ Resource_type resource ;;
  name <~ Resource_name resource ;;
  Ok (type_, name).

Definition add (resource : Resource) : M t unit :=
  key <- lift (identity_key resource) ;;
  self <- get ;;
  if dict_contains key_eqb key (__state self) then
    e <- lift (ResourceRedefinedError_new resource) ;;
    raise e
  else
    put (mk (dict_setitem key_eqb key resource (__state self))
            (__create_list self)) ;;;
    self <- get ;;
    put (mk (__state self) (__create_list self ++ [resource])).

Definition resource_order : dict string Z :=
  [ ("user", 0%Z); ("provider", 1%Z); ("source", 2%Z); ("entity", 3%Z);
    ("feature", 4%Z); ("label", 5%Z); ("training-set", 6%Z) ].

Definition to_sort_key (res : Resource) : result sort_key :=
  type_ <~ Resource_type res ;;
  resource_num <~
    match dict_getitem String.eqb type_ resource_order with
    | Some n => Ok n
    | None => Raise (KeyError type_)
    end ;;
  let variant :=
    match Resource_variant res with
    | Some v => v
    | None => EmptyString
    end in
  name <~ Resource_name res ;;
  Ok (resource_num, name, variant).

Definition sorted_list : M t (list Resource) :=
  self <- get ;;
  lift (sorted to_sort_key (dict_values (__state self))).

(** One turn of the loop of [create_all]. *)
Definition create_one (resource : Resource) (stub : Stub) : M World unit :=
  try_except_InactiveRpcError
    (name <- lift (Resource_name resource) ;;
     print "Creating " name ;;;
     Resource__create resource stub)
    (name <- lift (Resource_name resource) ;;
     print name " already exists.").

Fixpoint create_each (l : list Resource) (stub : Stub) : M World unit :=
  match l with
  | [] => ret tt
  | resource :: l' => create_one resource stub ;;; create_each l' stub
  end.

Definition create_all (self : t) (stub : Stub) : M World unit :=
  create_each (__create_list self) stub.

(** A caller that makes one [add] call per resource, in order, and goes on
    after a call that raised; it keeps the outcome of each call. *)
Fixpoint add_each (l : list Resource) (self : t) : list (result unit) * t :=
  match l with
  | [] => ([], self)
  | resource :: l' =>
      let (r, self') := add resource self in
      let (rs, self'') := add_each l' self' in
      (r :: rs, self'')
  end.

(** The resources whose [add] call returned, in the order of the calls. *)
Definition added (l : list Resource) (outcomes : list (result unit))
  : list Resource :=
  map fst (filter (fun p => is_Ok (snd p)) (combine l outcomes)).

End ResourceState.

(** ** The ordering policy in the words of the specification

    The kinds of resource, their priority, and the order on sort keys:
    priority first, then the name, then the variant, each compared
    lexicographically by code point. *)

Inductive Kind : Type :=
| KUser | KProvider | KSource | KEntity | KFeature | KLabel | KTrainingSet.

Definition priority (k : Kind) : Z :=
  match k with
  | KUser => 0
  | KProvider => 1
  | KSource => 2
  | KEntity => 3
  | KFeature => 4
  | KLabel => 5
  | KTrainingSet => 6
  end.

Definition kind (resource : Resource) : option Kind :=
  match resource with
  | RPrimaryData _ => None
  | RProvider _ => Some KProvider
  | REntity _ => Some KEntity
  | RUser _ => Some KUser
  | RFeature _ => Some KFeature
  | RLabel _ => Some KLabel
  | RTrainingSet _ => Some KTrainingSet
  | RSource _ => Some KSource
  end.

Definition variant_or_empty (resource : Resource) : string :=
  match Resource_variant resource with
  | Some v => v
  | None => EmptyString
  end.

Definition spec_sort_key (resource : Resource) : option sort_key :=
  match kind resource, Resource_name resource with
  | Some k, Ok name => Some (priority k, name, variant_or_empty resource)
  | _, _ => None
  end.

Definition string_lt (a b : string) : Prop := String.compare a b = Lt.

Definition sort_key_lt (a b : sort_key) : Prop :=
  let '(n1, s1, v1) := a in
  let '(n2, s2, v2) := b in
  (n1 < n2)%Z \/
  (n1 = n2 /\ (string_lt s1 s2 \/ (s1 = s2 /\ string_lt v1 v2))).

Definition sort_key_le (a b : sort_key) : Prop := sort_key_lt a b \/ a = b.

(** ** Reading a flat key-value record

    A reader for the text of a JSON object whose members are all strings,
    in the layout [json.dumps] writes.  It is used to state what the payload
    of [SnowflakeConfig.serialize] holds.  As in JSON, the content of a
    string is a sequence of UTF-16 code units: a character written as it is
    stands for its code, an escape [\uXXXX] for the unit XXXX.  A control
    character written as it is ends the reading. *)

(** The UTF-16 code units of a [str]: a code point below 0x10000 is one
    unit, a code point from 0x10000 the two units of its surrogate pair. *)
Definition utf16_char (c : codepoint) : list N :=
  let n := code c in
  if (n <? 0x10000)%N then [n]
  else [ (0xD800 + (n - 0x10000) / 0x400)%N;
         (0xDC00 + (n - 0x10000) mod 0x400)%N ].

Definition utf16 (s : str) : list N := flat_map utf16_char s.

(** A code point that is not a surrogate; a text is a [str] of such. *)
Definition is_scalar (c : codepoint) : bool :=
  (code c <? 0xD800)%N || (0xDFFF <? code c)%N.

Definition is_text (s : str) : bool := forallb is_scalar s.

Definition unhex (c : ascii) : option N :=
  let n := N_of_ascii c in
  if ((48 <=? n) && (n <=? 57))%N then Some (n - 48)%N
  else if ((97 <=? n) && (n <=? 102))%N then Some (n - 87)%N
  else None.

Definition unescape (e : ascii) : option N :=
  let n := N_of_ascii e in
  if (n =? 92)%N then Some 92%N
  else if (n =? 34)%N then Some 34%N
  else if (n =? 98)%N then Some 8%N
  else if (n =? 102)%N then Some 12%N
  else if (n =? 110)%N then Some 10%N
  else if (n =? 114)%N then Some 13%N
  else if (n =? 116)%N then Some 9%N
  else None.

Definition push (u : N) (r : option (list N * string))
  : option (list N * string) :=
  match r with
  | Some (s, rest) => Some (u :: s, rest)
  | None => None
  end.

(** Reads the characters of a string up to its closing quote; returns the
    code units read and the text after the quote. *)
Fixpoint read_chars (s : string) : option (list N * string) :=
  match s with
  | EmptyString => None
  | String c s1 =>
      let n := N_of_ascii c in
      if (n =? 34)%N then Some ([], s1)
      else if (n =? 92)%N then
        match s1 with
        | EmptyString => None
        | String e s2 =>
            if (N_of_ascii e =? 117)%N then
              match s2 with
              | String a (String b (String h (String l s3))) =>
                  match unhex a, unhex b, unhex h, unhex l with
                  | Some x3, Some x2, Some x1, Some x0 =>
                      push (4096 * x3 + 256 * x2 + 16 * x1 + x0)%N
                        (read_chars s3)
                  | _, _, _, _ => None
                  end
              | _ => None
              end
            else
              match unescape e with
              | Some u => push u (read_chars s2)
              | None => None
              end
        end
      else if (n <? 32)%N then None
      else push n (read_chars s1)
  end.

Definition read_quoted (s : string) : option (list N * string) :=
  match s with
  | EmptyString => None
  | String c s1 => if Ascii.eqb c dquote then read_chars s1 else None
  end.

Fixpoint expect (p s : string) : option string :=
  match p with
  | EmptyString => Some s
  | String a p' =>
      match s with
      | EmptyString => None
      | String b s' => if Ascii.eqb a b then expect p' s' else None
      end
  end.

Fixpoint read_items (fuel : nat) (s : string)
  : option (list (list N * list N)) :=
  match fuel with
  | O => None
  | S fuel' =>
      match read_quoted s with
      | None => None
      | Some (k, s1) =>
          match expect ": " s1 with
          | None => None
          | Some s2 =>
              match read_quoted s2 with
              | None => None
              | Some (v, s3) =>
                  if s3 =? "}" then Some [(k, v)]
                  else
                    match expect ", " s3 with
                    | None => None
                    | Some s4 =>
                        option_map (cons (k, v)) (read_items fuel' s4)
                    end
              end
          end
      end
  end.

Definition read_record (s : string) : option (list (list N * list N)) :=
  if s =? "{}" then Some []
  else
    match expect "{" s with
    | Some s1 => read_items (String.length s) s1
    | None => None
    end.

(** The text of a payload whose bytes are all below 128. *)
Fixpoint ascii_text (b : bytes) : option string :=
  match b with
  | [] => Some EmptyString
  | x :: b' =>
      if (Byte.to_N x <? 128)%N then
        option_map (String (ascii_of_byte x)) (ascii_text b')
      else None
  end.

Definition decode_flat_record (b : bytes)
  : option (list (list N * list N)) :=
  match ascii_text b with
  | Some s => read_record s
  | None => None
  end.

(** The text the encoder writes for one UTF-16 unit, and for a sequence
    of units. *)
Definition unit_text (u : N) : string :=
  let c := codepoint_of_N u in
  if ESCAPE_ASCII c then replace c
  else String (ascii_of_N (code c)) EmptyString.

Fixpoint units_text (us : list N) : string :=
  match us with
  | [] => EmptyString
  | u :: us' => unit_text u ++ units_text us'
  end.

(** The record that the reader finds in the text of a dict. *)
Definition units_of_items (d : list (str * str)) : list (list N * list N) :=
  map (fun kv => (utf16 (fst kv), utf16 (snd kv))) d.

(** The member of a flat record that holds a field under a name. *)
Definition member (name : string) (field : str) : list N * list N :=
  (utf16 (str_of_string name), utf16 field).

(** ** Predicates used by the statements *)

(** What makes the declaration of a training set invalid: an empty
    component in the label, no feature, or an empty component in a
    feature. *)
Definition empty_component (nvar : NameVariant) : Prop :=
  fst nvar = EmptyString \/ snd nvar = EmptyString.

Definition invalid_declaration (label : NameVariant)
  (features : list NameVariant) : Prop :=
  empty_component label \/ features = [] \/ Exists empty_component features.

(** Decorated elements in the order of their keys. *)
Definition keys_le {A} (p q : sort_key * A) : Prop :=
  sort_key_le (fst p) (fst q).

(** The invariant of the registry: the creation list is the list of the
    values of the map, every value is stored under its own key, and no key
    occurs twice. *)
Record registry_inv (self : ResourceState.t) : Prop := {
  inv_values :
    ResourceState.__create_list self
    = dict_values (ResourceState.__state self);
  inv_keys :
    Forall2 (fun r k => ResourceState.identity_key r = Ok k)
      (dict_values (ResourceState.__state self))
      (dict_keys (ResourceState.__state self));
  inv_nodup : NoDup (dict_keys (ResourceState.__state self)) }.

(** A text whose characters are all between space and tilde. *)
Fixpoint is_printable (s : string) : bool :=
  match s with
  | EmptyString => true
  | String c s' =>
      (32 <=? N_of_ascii c)%N && (N_of_ascii c <=? 126)%N && is_printable s'
  end.

(** A text whose characters are all below 128. *)
Fixpoint is_ascii (s : string) : bool :=
  match s with
  | EmptyString => true
  | String c s' => (N_of_ascii c <? 128)%N && is_ascii s'
  end.

(** The request that [_create] sends for a resource, when the call gets as
    far as the stub. *)
Definition wire_request (resource : Resource) : result request :=
  match resource with
  | RProvider r =>
      type_ <~ Config_type (Provider.config r) ;;
      serialized_config <~ Config_serialize (Provider.config r) ;;
      Ok (CreateProvider
            (pb.mkProvider (Provider.name r) (Provider.description r) type_
               (Config_software (Provider.config r)) (Provider.team r)
               serialized_config))
  | RUser r => Ok (CreateUser (pb.mkUser (User.name r)))
  | RSource r =>
      defArgs <~ SourceDefinition_kwargs (Source.definition r) ;;
      Ok (CreateSourceVariant
            (pb.mkSourceVariant (Source.name r) (Source.variant r)
               (Source.owner r) (Source.description r) (Source.provider r)
               defArgs))
  | _ => Raise (AttributeError (Resource_class resource) "_create")
  end.

(** The lines [create_all] prints for a resource whose call ended with
    [_InactiveRpcError]. *)
Definition swallowed_lines (name : string) : list string :=
  [ "Creating " ++ " " ++ name; name ++ " " ++ " already exists." ].

(** ** Stubs and registries of the scenarios *)

(** A stub whose calls all return. *)
Definition accepting_stub : Stub := fun _ _ => None.

(** A stub whose calls all end with the status [ALREADY_EXISTS]. *)
Definition already_exists_stub : Stub :=
  fun _ _ => Some (InactiveRpcError ALREADY_EXISTS).

(** A stub whose third call ends with the exception given, and whose other
    calls return. *)
Definition third_call_raises (e : exn) : Stub :=
  fun history _ => if (List.length history =? 2)%nat then Some e else None.

Definition new_world : World := mkWorld [] [].

Definition user (name : string) : Resource := RUser (User.mk name).

Definition five_users : list Resource :=
  [ user "u1"; user "u2"; user "u3"; user "u4"; user "u5" ].

Definition alice : Resource := user "alice".

Definition pg : Resource :=
  RProvider
    (Provider.mk "pg" EmptyString
       (Postgres (PostgresConfig.mk "h" 5432 "d" "u" "p"))
       EmptyString EmptyString).

Definition user_id : Resource := REntity (Entity.mk "user_id" "desc").

Definition feature (name variant : string) : Resource :=
  RFeature
    (Feature.mk name variant "float" "user_id" "alice" "pg" "desc"
       (ResourceColumnMapping.mk "entity" "value" "ts")).

(** The registry after the [add] calls of a list of resources. *)
Definition registry_of (l : list Resource) : ResourceState.t :=
  snd (ResourceState.add_each l ResourceState.__init__).

(** ** Further predicates and functions used by the statements *)

(** The sort key of a resource that has one. *)
Definition sort_key_of (resource : Resource) : sort_key :=
  match spec_sort_key resource with
  | Some sk => sk
  | None => (0%Z, EmptyString, EmptyString)
  end.

(** The listing order: strictly increasing sort keys. *)
Definition listed_before (a b : Resource) : Prop :=
  sort_key_lt (sort_key_of a) (sort_key_of b).

Definition is_InactiveRpcError (e : exn) : bool :=
  match e with
  | InactiveRpcError _ => true
  | _ => false
  end.

(** The answers of the stub after which the loop of [create_all] goes on:
    the call returned, or it raised [_InactiveRpcError]. *)
Definition swallowed (answer : option exn) : Prop :=
  match answer with
  | None => True
  | Some e => is_InactiveRpcError e = true
  end.

(** The first declaration under each key: reading a list of resources in
    order, keep a resource when it has a key and no resource before it had
    that key.  [seen] holds the keys met so far. *)
Fixpoint first_declarations_from (seen : list ResourceState.key)
  (l : list Resource) : list Resource :=
  match l with
  | [] => []
  | resource :: l' =>
      match ResourceState.identity_key resource with
      | Ok k =>
          if existsb (ResourceState.key_eqb k) seen then
            first_declarations_from seen l'
          else resource :: first_declarations_from (k :: seen) l'
      | Raise _ => first_declarations_from seen l'
      end
  end.

Definition first_declarations (l : list Resource) : list Resource :=
  first_declarations_from [] l.

(** The resources whose [_create] gets as far as the stub: a user, a
    provider with a Snowflake configuration, a source whose definition has
    [kwargs]. *)
Definition creatable (resource : Resource) : bool :=
  match resource with
  | RUser _ => true
  | RProvider r =>
      match Provider.config r with
      | Snowflake _ => true
      | _ => false
      end
  | RSource r =>
      match Source.definition r with
      | DefTransformation => false
      | _ => true
      end
  | _ => false
  end.

(** A table of primary data, which is a [Resource] without type or name. *)
Definition orders : Resource :=
  RPrimaryData (PrimaryData.mk (SQLTable.mk "orders")).

(** The requests of the five users. *)
Definition five_requests : list request :=
  [ CreateUser (pb.mkUser "u1"); CreateUser (pb.mkUser "u2");
    CreateUser (pb.mkUser "u3"); CreateUser (pb.mkUser "u4");
    CreateUser (pb.mkUser "u5") ].

(** A Snowflake configuration whose connection fields are texts: they hold
    no surrogate code point. *)
Definition connection_is_text (c : SnowflakeConfig.t) : bool :=
  is_text (SnowflakeConfig.username c)
  && is_text (SnowflakeConfig.password c)
  && is_text (SnowflakeConfig.organization c)
  && is_text (SnowflakeConfig.account c)
  && is_text (SnowflakeConfig.database c).

(** A configuration with a password given by its code points. *)
Definition config_with_password (codes : list N) : SnowflakeConfig.t :=
  SnowflakeConfig.mk (str_of_string "acme") (str_of_string "sales")
    (str_of_string "org") (str_of_string "alice")
    (map codepoint_of_N codes) (str_of_string "public").
(** ** Construction of a training set *)

Lemma valid_name_variant_false (nvar : NameVariant) :
  valid_name_variant nvar = false <-> empty_component nvar.
Proof.
  unfold valid_name_variant, empty_component.
  destruct nvar as [n v]; simpl.
  destruct (String.eqb_spec n EmptyString), (String.eqb_spec v EmptyString);
    simpl; intuition congruence.
Qed.

Lemma valid_name_variant_true (nvar : NameVariant) :
  valid_name_variant nvar = true <-> ~ empty_component nvar.
Proof.
  rewrite <- valid_name_variant_false.
  destruct (valid_name_variant nvar); intuition congruence.
Qed.

Lemma check_features_cases (l : list NameVariant) :
  (Exists empty_component l /\
   TrainingSet.check_features l = Raise (ValueError "Invalid Feature")) \/
  (Forall (fun f => ~ empty_component f) l /\
   TrainingSet.check_features l = Ok tt).
Proof.
  induction l as [|f l IH]; simpl.
  - right. split; [constructor | reflexivity].
  - destruct (valid_name_variant f) eqn:Hf; simpl.
    + apply valid_name_variant_true in Hf.
      destruct IH as [[Hex Hr] | [Hall Hr]].
      * left. split; [now apply Exists_cons_tl | exact Hr].
      * right. split; [now constructor | exact Hr].
    + apply valid_name_variant_false in Hf.
      left. split; [now apply Exists_cons_hd | reflexivity].
Qed.

Lemma Exists_not_Forall {A} (P : A -> Prop) (l : list A) :
  Exists P l -> Forall (fun x => ~ P x) l -> False.
Proof.
  induction 1 as [x l Hx | x l _ IH]; intros Hall; inversion Hall; subst; auto.
Qed.

(** C3.  The constructor of [TrainingSet] raises a [ValueError] exactly
    when the label has an empty name or variant, or there is no feature, or
    some feature has an empty name or variant; otherwise it returns the
    object with the fields given.  The constructor takes no registry: it
    fails before the object can reach one. *)
Theorem TrainingSet_new_fail_fast :
  forall name variant owner label features description,
    (invalid_declaration label features ->
     exists msg,
       TrainingSet.new name variant owner label features description
       = Raise (ValueError msg)) /\
    (~ invalid_declaration label features ->
     TrainingSet.new name variant owner label features description
     = Ok (TrainingSet.mk name variant owner label features description)).
Proof.
  intros name variant owner label features description.
  unfold invalid_declaration, TrainingSet.new, TrainingSet.__post_init__.
  simpl.
  destruct (valid_name_variant label) eqn:Hl; simpl.
  - apply valid_name_variant_true in Hl.
    destruct features as [|f fs].
    + simpl. split; [eexists; reflexivity | intros H; exfalso; apply H; auto].
    + cbn [List.length Nat.eqb].
      destruct (check_features_cases (f :: fs)) as [[Hex Hr] | [Hall Hr]];
        rewrite Hr.
      * split; [eexists; reflexivity | intros H; exfalso; apply H; auto].
      * split; [| reflexivity].
        intros [H | [H | H]]; [contradiction | discriminate |].
        exfalso. eapply Exists_not_Forall; eassumption.
  - apply valid_name_variant_false in Hl.
    split; [eexists; reflexivity | intros H; exfalso; apply H; auto].
Qed.

(** ** Redefinition *)

Section Redefinition.
Import ResourceState.

Lemma identity_key_inv (resource : Resource) (type_ name : string) :
  identity_key resource = Ok (type_, name) ->
  Resource_type resource = Ok type_ /\ Resource_name resource = Ok name.
Proof.
  unfold identity_key.
  destruct resource; simpl; intros H; inversion H; auto.
Qed.

(** C1.  When the key [(kind, name)] of a resource is already in the
    registry, whatever the variants of the two resources, [add] raises
    [ResourceRedefinedError] with a message that names the kind, the name
    and, for a resource with a variant, the variant; the registry after the
    call is the registry before it, map and creation list alike. *)
Theorem add_redefinition_keeps_registry :
  forall (self : ResourceState.t) (resource : Resource) (type_ name : string),
    identity_key resource = Ok (type_, name) ->
    dict_contains key_eqb (type_, name) (__state self) = true ->
    let variantStr :=
      match Resource_variant resource with
      | Some variant => " variant " ++ variant
      | None => EmptyString
      end in
    add resource self
    = (Raise (ResourceRedefinedError
                (type_ ++ " resource " ++ (name ++ variantStr)
                   ++ " defined in multiple places")),
       self).
Proof.
  intros self resource type_ name Hkey Hin variantStr.
  destruct (identity_key_inv _ Hkey) as [Hty Hname].
  unfold add, bind, lift, get, raise.
  rewrite Hkey, Hin.
  unfold ResourceRedefinedError_new, rbind.
  rewrite Hname, Hty.
  reflexivity.
Qed.

End Redefinition.

(** ** The order on sort keys *)

Lemma string_compare_OT (a b : string) :
  String.compare a b = String_as_OT.compare a b.
Proof.
  revert b. induction a as [|x a IH]; destruct b as [|y b]; simpl; auto.
Qed.

Lemma string_lt_irrefl (a : string) : ~ string_lt a a.
Proof.
  unfold string_lt. rewrite string_compare_OT.
  apply (StrictOrder_Irreflexive (R := String_as_OT.lt)).
Qed.

Lemma string_lt_trans (a b c : string) :
  string_lt a b -> string_lt b c -> string_lt a c.
Proof.
  unfold string_lt. rewrite !string_compare_OT.
  apply (StrictOrder_Transitive (R := String_as_OT.lt)).
Qed.

Lemma string_trichotomy (a b : string) :
  string_lt a b \/ a = b \/ string_lt b a.
Proof.
  unfold string_lt. rewrite !string_compare_OT.
  destruct (String_as_OT.compare_spec a b); auto.
Qed.

Lemma string_ltb_lt (a b : string) : String.ltb a b = true <-> string_lt a b.
Proof.
  unfold String.ltb, string_lt.
  destruct (String.compare a b); intuition congruence.
Qed.

Lemma sort_key_ltb_lt (a b : sort_key) :
  sort_key_ltb a b = true <-> sort_key_lt a b.
Proof.
  destruct a as [[n1 s1] v1], b as [[n2 s2] v2].
  unfold sort_key_ltb, sort_key_lt.
  destruct (Z.eqb_spec n1 n2) as [En | En]; simpl.
  - destruct (String.eqb_spec s1 s2) as [Es | Es]; simpl;
      rewrite string_ltb_lt; subst.
    + split; [auto | ].
      intros [H | [_ [H | [_ H]]]]; [lia | | exact H].
      exfalso. eapply string_lt_irrefl; eassumption.
    + split; [auto | ].
      intros [H | [_ [H | [H _]]]]; [lia | exact H | contradiction].
  - rewrite Z.ltb_lt. split; [auto | ].
    intros [H | [H _]]; [exact H | contradiction].
Qed.

Lemma sort_key_lt_irrefl (a : sort_key) : ~ sort_key_lt a a.
Proof.
  destruct a as [[n s] v]. unfold sort_key_lt.
  intros [H | [_ [H | [_ H]]]]; [lia | |];
    eapply string_lt_irrefl; eassumption.
Qed.

Lemma sort_key_lt_trans (a b c : sort_key) :
  sort_key_lt a b -> sort_key_lt b c -> sort_key_lt a c.
Proof.
  destruct a as [[n1 s1] v1], b as [[n2 s2] v2], c as [[n3 s3] v3].
  unfold sort_key_lt.
  intros [H1 | [E1 [H1 | [F1 H1]]]] [H2 | [E2 [H2 | [F2 H2]]]]; subst;
    try (left; lia); try (right; split; [reflexivity |]);
    eauto using string_lt_trans.
Qed.

Lemma sort_key_trichotomy (a b : sort_key) :
  sort_key_lt a b \/ a = b \/ sort_key_lt b a.
Proof.
  destruct a as [[n1 s1] v1], b as [[n2 s2] v2].
  unfold sort_key_lt.
  destruct (Z.lt_trichotomy n1 n2) as [H | [H | H]]; auto.
  subst.
  destruct (string_trichotomy s1 s2) as [H | [H | H]]; auto 6.
  subst.
  destruct (string_trichotomy v1 v2) as [H | [H | H]]; auto 8.
  subst. auto.
Qed.

Lemma sort_key_not_ltb_le (a b : sort_key) :
  sort_key_ltb b a = false <-> sort_key_le a b.
Proof.
  unfold sort_key_le. split.
  - intros H.
    destruct (sort_key_trichotomy a b) as [Hlt | [Heq | Hgt]]; auto.
    apply sort_key_ltb_lt in Hgt. congruence.
  - intros [Hlt | Heq].
    + destruct (sort_key_ltb b a) eqn:E; auto.
      apply sort_key_ltb_lt in E.
      exfalso. apply (@sort_key_lt_irrefl a).
      eapply sort_key_lt_trans; eassumption.
    + subst. destruct (sort_key_ltb b b) eqn:E; auto.
      apply sort_key_ltb_lt in E. now apply sort_key_lt_irrefl in E.
Qed.

Lemma sort_key_le_trans (a b c : sort_key) :
  sort_key_le a b -> sort_key_le b c -> sort_key_le a c.
Proof.
  unfold sort_key_le.
  intros [H1 | H1] [H2 | H2]; subst; auto.
  left. eapply sort_key_lt_trans; eassumption.
Qed.

Lemma sort_key_le_total (a b : sort_key) :
  sort_key_le a b \/ sort_key_le b a.
Proof.
  unfold sort_key_le.
  destruct (sort_key_trichotomy a b) as [H | [H | H]]; auto.
Qed.

(** ** [sorted] returns a sorted permutation *)

Section SortedFacts.
Variable A : Type.
Variable key : A -> result sort_key.
Lemma insert_perm (x : sort_key * A) (l : list (sort_key * A)) :
  Permutation (x :: l) (insert x l).
Proof.
  induction l as [|y l IH]; simpl; auto.
  destruct (sort_key_ltb (fst y) (fst x)); auto.
  rewrite perm_swap. now constructor.
Qed.

Lemma insert_Forall (P : sort_key * A -> Prop) x l :
  P x -> Forall P l -> Forall P (insert x l).
Proof.
  intros Hx Hl.
  eapply Permutation_Forall; [apply insert_perm | now constructor].
Qed.

Lemma insert_sorted (x : sort_key * A) (l : list (sort_key * A)) :
  StronglySorted keys_le l -> StronglySorted keys_le (insert x l).
Proof.
  induction 1 as [|y l Hs IH Hy]; simpl.
  - repeat constructor.
  - destruct (sort_key_ltb (fst y) (fst x)) eqn:E.
    + constructor; auto.
      apply insert_Forall; auto.
      left. now apply sort_key_ltb_lt.
    + apply sort_key_not_ltb_le in E.
      constructor; [now constructor |].
      constructor; auto.
      eapply Forall_impl; [| exact Hy].
      intros z Hz. eapply sort_key_le_trans; eassumption.
Qed.

Lemma stable_sort_perm (l : list (sort_key * A)) :
  Permutation l (stable_sort l).
Proof.
  induction l as [|x l IH]; simpl; auto.
  rewrite <- insert_perm. now constructor.
Qed.

Lemma stable_sort_sorted (l : list (sort_key * A)) :
  StronglySorted keys_le (stable_sort l).
Proof.
  induction l as [|x l IH]; simpl; [constructor | now apply insert_sorted].
Qed.

Lemma decorate_Ok (l : list A) (ks : list sort_key) :
  Forall2 (fun x k => key x = Ok k) l ks ->
  decorate key l = Ok (combine ks l).
Proof.
  induction 1 as [|x k l ks Hx _ IH]; simpl; auto.
  rewrite Hx, IH. reflexivity.
Qed.

Lemma combine_keyed (l : list A) (ks : list sort_key) :
  Forall2 (fun x k => key x = Ok k) l ks ->
  Forall (fun p => key (snd p) = Ok (fst p)) (combine ks l)
  /\ map snd (combine ks l) = l.
Proof.
  induction 1 as [|x k l ks Hx _ [IH1 IH2]]; simpl; auto.
  split; [now constructor | now f_equal].
Qed.

Lemma keyed_Forall2 (d : list (sort_key * A)) :
  Forall (fun p => key (snd p) = Ok (fst p)) d ->
  Forall2 (fun x k => key x = Ok k) (map snd d) (map fst d).
Proof.
  induction 1; simpl; constructor; auto.
Qed.

Lemma sorted_keys (d : list (sort_key * A)) :
  StronglySorted keys_le d -> StronglySorted sort_key_le (map fst d).
Proof.
  induction 1 as [|p d _ IH Hp]; simpl; constructor; auto.
  rewrite Forall_map. exact Hp.
Qed.

(** When every element has a key, [sorted] returns a permutation of the
    list whose keys are in order. *)
Lemma sorted_spec (l : list A) (ks : list sort_key) :
  Forall2 (fun x k => key x = Ok k) l ks ->
  exists l' ks',
    sorted key l = Ok l' /\ Permutation l l' /\
    Forall2 (fun x k => key x = Ok k) l' ks' /\
    StronglySorted sort_key_le ks'.
Proof.
  intros H.
  destruct (combine_keyed H) as [Hk Hm].
  exists (map snd (stable_sort (combine ks l))),
         (map fst (stable_sort (combine ks l))).
  unfold sorted. rewrite (decorate_Ok H). simpl.
  repeat split.
  - rewrite <- Hm at 1. apply Permutation_map, stable_sort_perm.
  - apply keyed_Forall2.
    eapply Permutation_Forall; [apply stable_sort_perm | exact Hk].
  - apply sorted_keys, stable_sort_sorted.
Qed.

End SortedFacts.

(** ** Facts about the registry *)

Section RegistryFacts.
Import ResourceState.
Local Open Scope list_scope.

Lemma key_eqb_eq (a b : key) : key_eqb a b = true <-> a = b.
Proof.
  destruct a as [t1 n1], b as [t2 n2]. unfold key_eqb. simpl.
  rewrite andb_true_iff, !String.eqb_eq.
  split; [intros [-> ->]; reflexivity | intros H; inversion H; auto].
Qed.

Lemma dict_contains_In (k : key) (d : dict key Resource) :
  dict_contains key_eqb k d = true <-> In k (dict_keys d).
Proof.
  induction d as [|[k' v] d IH]; simpl.
  - split; [discriminate | contradiction].
  - rewrite orb_true_iff, IH, key_eqb_eq. intuition.
Qed.

Lemma dict_setitem_fresh (k : key) (v : Resource) (d : dict key Resource) :
  dict_contains key_eqb k d = false ->
  dict_setitem key_eqb k v d = d ++ [(k, v)].
Proof.
  induction d as [|[k' v'] d IH]; simpl; auto.
  intros H. apply orb_false_iff in H. destruct H as [H1 H2].
  rewrite H1, IH; auto.
Qed.

Lemma add_fresh (resource : Resource) (k : key) (self : t) :
  identity_key resource = Ok k ->
  dict_contains key_eqb k (__state self) = false ->
  add resource self
  = (Ok tt, mk (__state self ++ [(k, resource)])
               (__create_list self ++ [resource])).
Proof.
  intros Hk Hn. unfold add, bind, lift, get, put.
  rewrite Hk, Hn. simpl. rewrite dict_setitem_fresh; auto.
Qed.

(** A call of [add] either records the resource under a key that was not
    in the map, or raises and leaves the registry as it was. *)
Lemma add_cases (resource : Resource) (self : t) :
  (exists k,
      identity_key resource = Ok k /\
      dict_contains key_eqb k (__state self) = false /\
      add resource self
      = (Ok tt, mk (__state self ++ [(k, resource)])
                   (__create_list self ++ [resource])))
  \/ (exists e, add resource self = (Raise e, self)).
Proof.
  destruct (identity_key resource) as [k | e] eqn:Hk.
  - destruct (dict_contains key_eqb k (__state self)) eqn:Hc.
    + right. unfold add, bind, lift, get, raise. rewrite Hk, Hc.
      destruct (ResourceRedefinedError_new resource); eexists; reflexivity.
    + left. exists k. auto using add_fresh.
  - right. exists e. unfold add, bind, lift. rewrite Hk. reflexivity.
Qed.

Lemma registry_inv_init : registry_inv __init__.
Proof. split; simpl; constructor. Qed.

Lemma NoDup_snoc {B} (l : list B) (x : B) :
  NoDup l -> ~ In x l -> NoDup (l ++ [x]).
Proof.
  intros Hl Hx. apply NoDup_app; [exact Hl | repeat constructor; auto |].
  intros y Hy [<- | []]. contradiction.
Qed.

Lemma registry_inv_add (resource : Resource) (self : t) :
  registry_inv self -> registry_inv (snd (add resource self)).
Proof.
  intros [Hv Hk Hn].
  destruct (add_cases resource self) as [(k & Hid & Hc & ->) | (e & ->)];
    simpl; [| now split].
  split; simpl; unfold dict_values, dict_keys in *.
  - rewrite map_app, Hv. reflexivity.
  - rewrite !map_app. apply Forall2_app; auto.
    simpl. now repeat constructor.
  - rewrite map_app. apply NoDup_snoc; auto.
    intros Hin. apply dict_contains_In in Hin. simpl in Hin. congruence.
Qed.

Lemma added_cons (r : Resource) (o : result unit) l outs :
  added (r :: l) (o :: outs)
  = if is_Ok o then r :: added l outs else added l outs.
Proof. unfold added. simpl. destruct (is_Ok o); reflexivity. Qed.

Lemma add_each_inv (l : list Resource) (self : t) :
  registry_inv self ->
  registry_inv (snd (add_each l self)) /\
  __create_list (snd (add_each l self))
  = __create_list self ++ added l (fst (add_each l self)).
Proof.
  revert self. induction l as [|r l IH]; intros self Hinv; simpl.
  - rewrite app_nil_r. auto.
  - pose proof (registry_inv_add r Hinv) as Hinv'.
    destruct (add_cases r self) as [(k & _ & _ & E) | (e & E)];
      rewrite E in *; simpl in Hinv';
      destruct (IH _ Hinv') as [IH1 IH2];
      destruct (add_each l _) as [outs self'']; simpl in *;
      rewrite added_cons; simpl; split; auto.
    rewrite IH2, <- app_assoc. reflexivity.
Qed.

Lemma add_each_distinct (l : list Resource) (ks : list key) :
  Forall2 (fun r k => identity_key r = Ok k) l ks ->
  forall self,
    NoDup (dict_keys (__state self) ++ ks) ->
    add_each l self
    = (map (fun _ => Ok tt) l,
       mk (__state self ++ combine ks l) (__create_list self ++ l)).
Proof.
  induction 1 as [|r k l ks Hr _ IH]; intros self Hn; simpl.
  - rewrite !app_nil_r. destruct self; reflexivity.
  - assert (Hc : dict_contains key_eqb k (__state self) = false).
    { destruct (dict_contains key_eqb k (__state self)) eqn:E; auto.
      apply dict_contains_In in E.
      apply NoDup_remove_2 in Hn. exfalso. apply Hn.
      apply in_or_app. auto. }
    rewrite (add_fresh _ _ Hr Hc).
    rewrite IH; simpl.
    + rewrite <- !app_assoc. reflexivity.
    + unfold dict_keys in *. rewrite map_app, <- app_assoc. exact Hn.
Qed.

Lemma Forall2_NoDup {B C} (R : B -> C -> Prop) (l : list B) (ks : list C) :
  (forall x k k', R x k -> R x k' -> k = k') ->
  Forall2 R l ks -> NoDup ks -> NoDup l.
Proof.
  intros Hfun H. induction H as [|x k l ks Hx H IH]; intros Hn.
  - constructor.
  - inversion Hn as [|? ? Hk Hn']; subst. constructor; auto.
    intros Hin. apply Hk.
    clear - Hfun Hx H Hin.
    induction H as [|y k' l ks Hy _ IH]; [contradiction |].
    destruct Hin as [-> | Hin]; [left; eauto | right; auto].
Qed.

Lemma to_sort_key_spec (resource : Resource) (k : sort_key) :
  spec_sort_key resource = Some k -> to_sort_key resource = Ok k.
Proof.
  destruct resource; simpl; intros H; inversion H; reflexivity.
Qed.

Lemma spec_sort_key_defined (resource : Resource) (k : key) :
  identity_key resource = Ok k -> exists sk, spec_sort_key resource = Some sk.
Proof.
  destruct resource; simpl; intros H; inversion H; eexists; reflexivity.
Qed.

End RegistryFacts.

(** ** The registry after a run of [add] calls *)

Section RegistryTheorems.
Import ResourceState.
Local Open Scope list_scope.

Lemma to_sort_key_iff (resource : Resource) (k : sort_key) :
  to_sort_key resource = Ok k <-> spec_sort_key resource = Some k.
Proof.
  destruct resource; simpl; split; intros H; inversion H; reflexivity.
Qed.

Lemma spec_sort_keys_defined (l : list Resource) (ks : list key) :
  Forall2 (fun r k => identity_key r = Ok k) l ks ->
  exists sks, Forall2 (fun r sk => to_sort_key r = Ok sk) l sks.
Proof.
  induction 1 as [|r k l ks Hr _ [sks IH]].
  - exists []. constructor.
  - destruct (spec_sort_key_defined _ Hr) as [sk Hsk].
    exists (sk :: sks). constructor; auto.
    now apply to_sort_key_iff.
Qed.

Lemma values_combine (l : list Resource) (ks : list key) :
  Forall2 (fun r k => identity_key r = Ok k) l ks ->
  dict_values (combine ks l) = l.
Proof.
  unfold dict_values.
  induction 1; simpl; [reflexivity | now f_equal].
Qed.

Lemma keys_combine (l : list Resource) (ks : list key) :
  Forall2 (fun r k => identity_key r = Ok k) l ks ->
  dict_keys (combine ks l) = ks.
Proof.
  unfold dict_keys.
  induction 1; simpl; [reflexivity | now f_equal].
Qed.

(** C2.  When the resources of a run of [add] calls on a new registry have
    pairwise distinct keys [(kind, name)], every call returns, and
    [sorted_list] then returns a permutation of those resources whose sort
    keys (priority of the kind, name, variant or the empty string) are in
    order: by priority (user 0, provider 1, source 2, entity 3, feature 4,
    label 5, training set 6), then by name, then by variant. *)
Theorem add_distinct_then_sorted_list :
  forall (resources : list Resource) (keys : list key),
    Forall2 (fun r k => identity_key r = Ok k) resources keys ->
    NoDup keys ->
    let run := add_each resources __init__ in
    fst run = map (fun _ => Ok tt) resources /\
    exists listing sort_keys,
      sorted_list (snd run) = (Ok listing, snd run) /\
      Permutation resources listing /\
      Forall2 (fun r sk => spec_sort_key r = Some sk) listing sort_keys /\
      StronglySorted sort_key_le sort_keys.
Proof.
  intros resources keys Hkeys Hnodup run.
  assert (Hrun : run = (map (fun _ => Ok tt) resources,
                        mk (combine keys resources) resources)).
  { unfold run. rewrite (add_each_distinct Hkeys); auto. }
  rewrite Hrun. simpl. split; [reflexivity |].
  destruct (spec_sort_keys_defined Hkeys) as [sks Hsks].
  destruct (sorted_spec to_sort_key Hsks)
    as (listing & sort_keys & Hs & Hp & Hk & Ho).
  exists listing, sort_keys.
  unfold sorted_list, bind, get, lift. simpl.
  rewrite (values_combine Hkeys), Hs.
  repeat split; auto.
  eapply Forall2_impl; [| exact Hk].
  intros r sk. apply to_sort_key_iff.
Qed.

(** C10.  After any run of [add] calls on a new registry, whether the
    calls returned or raised, the creation list is the list of the values
    of the map, in the same order; it has no duplicates; it is the list of
    the resources whose call returned, in the order of the calls; and the
    keys [(kind, name)] of its elements are the keys of the map, pairwise
    distinct. *)
Theorem registry_invariant_after_adds :
  forall resources : list Resource,
    let run := add_each resources __init__ in
    let self := snd run in
    __create_list self = dict_values (__state self) /\
    NoDup (__create_list self) /\
    __create_list self = added resources (fst run) /\
    Forall2 (fun r k => identity_key r = Ok k)
      (__create_list self) (dict_keys (__state self)) /\
    NoDup (dict_keys (__state self)).
Proof.
  intros resources run self.
  destruct (add_each_inv resources registry_inv_init) as [[Hv Hk Hn] Hl].
  fold run in Hv, Hk, Hn, Hl. fold self in Hv, Hk, Hn, Hl.
  rewrite <- Hv in Hk.
  repeat split; auto.
  eapply Forall2_NoDup; [| exact Hk | exact Hn].
  intros x k k' H1 H2. congruence.
Qed.

(** C9.  [sorted_list] leaves the registry as it was, map and creation
    list alike, so that [create_all] after it makes the calls it would have
    made without it. *)
Theorem sorted_list_leaves_registry :
  forall (self : t) (stub : Stub) (w : World),
    let self' := snd (sorted_list self) in
    __state self' = __state self /\
    __create_list self' = __create_list self /\
    create_all self' stub w = create_all self stub w.
Proof.
  intros self stub w. unfold sorted_list, bind, get, lift. simpl.
  destruct (sorted to_sort_key (dict_values (__state self))); simpl; auto.
Qed.

End RegistryTheorems.

(** ** The payload of a Snowflake configuration *)

Section Payload.

Lemma string_app_assoc (a b c : string) : (a ++ b) ++ c = a ++ (b ++ c).
Proof. induction a as [|x a IH]; simpl; [reflexivity | now rewrite IH]. Qed.

Lemma string_length_app (a b : string) :
  String.length (a ++ b) = (String.length a + String.length b)%nat.
Proof. induction a as [|x a IH]; simpl; [reflexivity | now rewrite IH]. Qed.

Lemma code_lt (c : codepoint) : (code c < 0x110000)%N.
Proof. apply N.ltb_lt, code_range. Qed.

Lemma N_of_hex_digit (d : N) :
  (d < 16)%N ->
  N_of_ascii (hex_digit d) = if (d <? 10)%N then (48 + d)%N else (87 + d)%N.
Proof.
  intros H. unfold hex_digit.
  destruct (d <? 10)%N; apply N_ascii_embedding; lia.
Qed.

Lemma unhex_hex_digit (d : N) : (d < 16)%N -> unhex (hex_digit d) = Some d.
Proof.
  intros H. unfold unhex. rewrite (N_of_hex_digit H).
  destruct (N.ltb_spec d 10) as [Hd | Hd].
  - assert (E : ((48 <=? 48 + d) && (48 + d <=? 57))%N = true)
      by (apply andb_true_intro; split; apply N.leb_le; lia).
    rewrite E. f_equal. lia.
  - assert (E1 : ((48 <=? 87 + d) && (87 + d <=? 57))%N = false)
      by (apply andb_false_intro2, N.leb_gt; lia).
    assert (E2 : ((97 <=? 87 + d) && (87 + d <=? 102))%N = true)
      by (apply andb_true_intro; split; apply N.leb_le; lia).
    rewrite E1, E2. f_equal. lia.
Qed.

Ltac lia_div := zify; Z.to_euclidean_division_equations; lia.

Lemma hex4_value (n : N) :
  (n < 65536)%N ->
  (4096 * (n / 4096 mod 16) + 256 * (n / 256 mod 16) + 16 * (n / 16 mod 16)
   + n mod 16 = n)%N.
Proof. intros H. lia_div. Qed.

Lemma mod16_lt (n : N) : (n mod 16 < 16)%N.
Proof. apply N.mod_lt. discriminate. Qed.

(** The reader reads one escape [\uXXXX] as the unit XXXX. *)
Lemma read_chars_unit (n : N) (t : string) :
  (n < 65536)%N ->
  read_chars (String backslash ("u" ++ format_04x n) ++ t)
  = push n (read_chars t).
Proof.
  intros H. unfold format_04x.
  cbn [append read_chars].
  change (N_of_ascii backslash =? 34)%N with false.
  change (N_of_ascii backslash =? 92)%N with true.
  change (N_of_ascii "u" =? 117)%N with true.
  cbv iota.
  rewrite !unhex_hex_digit by apply mod16_lt.
  rewrite (hex4_value H). reflexivity.
Qed.

Lemma lor_disjoint (a x : N) :
  N.land a 0x3ff = 0%N -> (x < 0x400)%N -> N.lor a x = (a + x)%N.
Proof.
  intros Ha Hx.
  assert (Hl : N.land a x = 0%N).
  { rewrite <- (N.mod_small x 0x400 Hx).
    change 0x400%N with (2 ^ 10)%N. rewrite <- N.land_ones.
    change (N.ones 10) with 0x3ff%N.
    rewrite (N.land_comm x), N.land_assoc, Ha. reflexivity. }
  rewrite (N.add_nocarry_lxor _ _ Hl). symmetry. now apply N.lxor_lor.
Qed.

(** The two units the encoder writes for a code point from 0x10000 are the
    units of its surrogate pair. *)
Lemma surrogate_units (n : N) :
  (n < 0x100000)%N ->
  N.lor 0xd800 (N.land (N.shiftr n 10) 0x3ff) = (0xD800 + n / 0x400)%N /\
  N.lor 0xdc00 (N.land n 0x3ff) = (0xDC00 + n mod 0x400)%N.
Proof.
  intros H.
  change 0x3ff%N with (N.ones 10). rewrite !N.land_ones, N.shiftr_div_pow2.
  change (2 ^ 10)%N with 0x400%N.
  assert (Hq : (n / 0x400 < 0x400)%N)
    by (apply N.Div0.div_lt_upper_bound; exact H).
  rewrite (N.mod_small _ _ Hq).
  split; apply lor_disjoint; try reflexivity; auto.
  apply N.mod_lt. discriminate.
Qed.

Lemma fold_push_Some (us s : list N) (rest : string) :
  fold_right push (Some (s, rest)) us = Some ((us ++ s)%list, rest).
Proof.
  induction us as [|u us IH]; simpl; [reflexivity | now rewrite IH].
Qed.

Ltac case_code n k :=
  destruct (N.eqb_spec n k) as [-> | ?]; [try reflexivity; try lia |].

(** The reader undoes the replacement of one character: it reads the
    UTF-16 units of the character. *)
Lemma read_chars_escape (c : codepoint) (t : string) :
  read_chars
    ((if ESCAPE_ASCII c then replace c
      else String (ascii_of_N (code c)) EmptyString) ++ t)
  = fold_right push (read_chars t) (utf16_char c).
Proof.
  destruct c as [n Hr]. pose proof (proj1 (N.ltb_lt _ _) Hr) as Hlt.
  unfold ESCAPE_ASCII, replace, ESCAPE_DCT, utf16_char. cbn [code].
  case_code n 92%N. case_code n 34%N. cbn [orb].
  destruct (N.ltb_spec n 32) as [Hlow | Hlow]; cbn [orb].
  - case_code n 8%N. case_code n 12%N. case_code n 10%N.
    case_code n 13%N. case_code n 9%N.
    assert (Hb : (n <? 0x10000)%N = true) by (apply N.ltb_lt; lia).
    rewrite Hb. apply read_chars_unit. lia.
  - case_code n 8%N. case_code n 12%N. case_code n 10%N.
    case_code n 13%N. case_code n 9%N.
    destruct (N.ltb_spec 126 n) as [Hhigh | Hhigh].
    + destruct (N.ltb_spec n 0x10000) as [Hb | Hb].
      * apply read_chars_unit. exact Hb.
      * destruct (@surrogate_units (n - 0x10000)%N) as [E1 E2]; [lia |].
        rewrite E1, E2, string_app_assoc.
        rewrite read_chars_unit, read_chars_unit; [reflexivity | |].
        -- assert ((n - 0x10000) mod 0x400 < 0x400)%N
             by (apply N.mod_lt; discriminate).
           lia.
        -- assert ((n - 0x10000) / 0x400 < 0x400)%N
             by (apply N.Div0.div_lt_upper_bound; lia).
           lia.
    + assert (Hb : (n <? 0x10000)%N = true) by (apply N.ltb_lt; lia).
      rewrite Hb. cbn [append read_chars fold_right].
      rewrite N_ascii_embedding by lia.
      assert (E34 : (n =? 34)%N = false) by (now apply N.eqb_neq).
      assert (E92 : (n =? 92)%N = false) by (now apply N.eqb_neq).
      assert (E32 : (n <? 32)%N = false) by (now apply N.ltb_ge).
      now rewrite E34, E92, E32.
Qed.

Lemma read_chars_escape_sub (s : str) (rest : string) :
  read_chars (escape_sub s ++ String dquote rest) = Some (utf16 s, rest).
Proof.
  induction s as [|c s IH]; [reflexivity |].
  cbn [escape_sub utf16 flat_map].
  rewrite string_app_assoc, read_chars_escape, IH.
  apply fold_push_Some.
Qed.

Lemma read_quoted_encode (s : str) (rest : string) :
  read_quoted (py_encode_basestring_ascii s ++ rest) = Some (utf16 s, rest).
Proof.
  unfold py_encode_basestring_ascii. cbn [append read_quoted].
  change (Ascii.eqb dquote dquote) with true. cbv iota.
  rewrite string_app_assoc. apply read_chars_escape_sub.
Qed.

Lemma read_items_join (d : list (str * str)) :
  d <> [] ->
  forall fuel,
    (List.length d <= fuel)%nat ->
    read_items fuel (join ", " (map json_item d) ++ "}")
    = Some (units_of_items d).
Proof.
  induction d as [|[k v] d IH]; [congruence |].
  intros _ fuel Hfuel.
  destruct fuel as [|fuel]; [simpl in Hfuel; lia |].
  destruct d as [|kv d].
  - cbn [map join read_items]. unfold json_item. cbn [fst snd].
    rewrite !string_app_assoc, read_quoted_encode.
    cbn [expect append Ascii.eqb Bool.eqb].
    rewrite read_quoted_encode. reflexivity.
  - change (join ", " (map json_item ((k, v) :: kv :: d)))
      with (json_item (k, v) ++ ", " ++ join ", " (map json_item (kv :: d))).
    unfold json_item at 1. cbn [fst snd read_items].
    rewrite !string_app_assoc, read_quoted_encode.
    cbn [expect append Ascii.eqb Bool.eqb].
    rewrite read_quoted_encode.
    cbn [String.eqb expect append Ascii.eqb Bool.eqb].
    rewrite IH; [reflexivity | discriminate | simpl in *; lia].
Qed.

Lemma json_dumps_length (d : list (str * str)) :
  (List.length d <= String.length (join ", " (map json_item d)))%nat.
Proof.
  induction d as [|[k v] d IH]; [simpl; lia |].
  destruct d as [|kv d].
  - cbn [map join]. unfold json_item, py_encode_basestring_ascii.
    cbn [fst snd append String.length List.length]. lia.
  - change (join ", " (map json_item ((k, v) :: kv :: d)))
      with (json_item (k, v) ++ ", " ++ join ", " (map json_item (kv :: d))).
    rewrite !string_length_app.
    change (String.length ", ") with 2%nat.
    cbn [List.length] in *. lia.
Qed.

(** Reading back what [json.dumps] wrote gives the items of the dict, each
    string as its UTF-16 units. *)
Lemma read_record_json_dumps (d : list (str * str)) :
  read_record (json_dumps d) = Some (units_of_items d).
Proof.
  destruct d as [|[k v] d]; [reflexivity |].
  unfold read_record, json_dumps.
  assert (Hne : ("{" ++ join ", " (map json_item ((k, v) :: d)) ++ "}"
                 =? "{}") = false).
  { destruct d; reflexivity. }
  rewrite Hne. cbn [expect append Ascii.eqb Bool.eqb].
  apply read_items_join; [discriminate |].
  pose proof (json_dumps_length ((k, v) :: d)) as Hlen.
  cbn [String.length]. rewrite string_length_app. lia.
Qed.

Lemma is_printable_app (a b : string) :
  is_printable (a ++ b) = is_printable a && is_printable b.
Proof.
  induction a as [|x a IH]; simpl; [reflexivity |].
  now rewrite IH, !andb_assoc.
Qed.

Lemma hex_digit_printable (d : N) (s : string) :
  (d < 16)%N ->
  is_printable (String (hex_digit d) s) = is_printable s.
Proof.
  intros H. cbn [is_printable]. rewrite (N_of_hex_digit H).
  destruct (N.ltb_spec d 10).
  - assert (E1 : (32 <=? 48 + d)%N = true) by (apply N.leb_le; lia).
    assert (E2 : (48 + d <=? 126)%N = true) by (apply N.leb_le; lia).
    now rewrite E1, E2.
  - assert (E1 : (32 <=? 87 + d)%N = true) by (apply N.leb_le; lia).
    assert (E2 : (87 + d <=? 126)%N = true) by (apply N.leb_le; lia).
    now rewrite E1, E2.
Qed.

Lemma is_printable_unit (n : N) :
  is_printable (String backslash ("u" ++ format_04x n)) = true.
Proof.
  unfold format_04x. cbn [append].
  change (is_printable (String backslash (String "u" ?s)))
    with (is_printable s).
  now rewrite !hex_digit_printable by apply mod16_lt.
Qed.

Lemma is_printable_escape (c : codepoint) :
  is_printable
    (if ESCAPE_ASCII c then replace c
     else String (ascii_of_N (code c)) EmptyString)
  = true.
Proof.
  destruct c as [n Hr]. pose proof (proj1 (N.ltb_lt _ _) Hr) as Hlt.
  unfold ESCAPE_ASCII, replace, ESCAPE_DCT. cbn [code].
  case_code n 92%N. case_code n 34%N. cbn [orb].
  destruct (N.ltb_spec n 32) as [Hlow | Hlow]; cbn [orb].
  - case_code n 8%N. case_code n 12%N. case_code n 10%N.
    case_code n 13%N. case_code n 9%N.
    apply is_printable_unit.
  - case_code n 8%N. case_code n 12%N. case_code n 10%N.
    case_code n 13%N. case_code n 9%N.
    destruct (N.ltb_spec 126 n) as [Hhigh | Hhigh].
    + destruct (n <? 0x10000)%N; [apply is_printable_unit |].
      now rewrite is_printable_app, !is_printable_unit.
    + cbn [is_printable]. rewrite N_ascii_embedding by lia.
      assert (E1 : (32 <=? n)%N = true) by (now apply N.leb_le).
      assert (E2 : (n <=? 126)%N = true) by (now apply N.leb_le).
      now rewrite E1, E2.
Qed.

Lemma is_printable_escape_sub (s : str) : is_printable (escape_sub s) = true.
Proof.
  induction s as [|c s IH]; [reflexivity |].
  cbn [escape_sub]. now rewrite is_printable_app, is_printable_escape, IH.
Qed.

Lemma is_printable_encode (s : str) :
  is_printable (py_encode_basestring_ascii s) = true.
Proof.
  unfold py_encode_basestring_ascii.
  change (is_printable (String dquote ?t)) with (is_printable t).
  now rewrite is_printable_app, is_printable_escape_sub.
Qed.

Lemma is_printable_join (d : list (str * str)) :
  is_printable (join ", " (map json_item d)) = true.
Proof.
  induction d as [|[k v] d IH]; [reflexivity |].
  assert (Hitem : is_printable (json_item (k, v)) = true).
  { unfold json_item.
    now rewrite !is_printable_app, !is_printable_encode. }
  destruct d as [|kv d]; [exact Hitem |].
  change (join ", " (map json_item ((k, v) :: kv :: d)))
    with (json_item (k, v) ++ ", " ++ join ", " (map json_item (kv :: d))).
  now rewrite !is_printable_app, Hitem, IH.
Qed.

(** The text [json.dumps] writes holds characters between space and tilde
    only. *)
Lemma is_printable_json_dumps (d : list (str * str)) :
  is_printable (json_dumps d) = true.
Proof.
  unfold json_dumps.
  now rewrite !is_printable_app, is_printable_join.
Qed.

Lemma is_printable_is_ascii (s : string) :
  is_printable s = true -> is_ascii s = true.
Proof.
  induction s as [|c s IH]; simpl; [reflexivity |].
  intros H. apply andb_prop in H. destruct H as [H Hs].
  apply andb_prop in H. destruct H as [_ Hc].
  apply N.leb_le in Hc.
  rewrite (IH Hs), andb_true_r. apply N.ltb_lt. lia.
Qed.

Lemma to_N_byte_of_ascii (c : ascii) :
  Byte.to_N (byte_of_ascii c) = N_of_ascii c.
Proof.
  destruct c as [[] [] [] [] [] [] [] []]; reflexivity.
Qed.

(** The UTF-8 bytes of a text of characters below 128 are its characters. *)
Lemma ascii_text_utf8 (s : string) :
  is_ascii s = true -> ascii_text (utf8 s) = Some s.
Proof.
  induction s as [|c s IH]; simpl; [reflexivity |].
  intros H. apply andb_prop in H. destruct H as [Hc Hs].
  unfold utf8_char. rewrite Hc. simpl.
  rewrite to_N_byte_of_ascii, Hc, (IH Hs), ascii_of_byte_of_ascii.
  reflexivity.
Qed.

Lemma decode_flat_record_json (d : list (str * str)) :
  decode_flat_record (utf8 (json_dumps d)) = Some (units_of_items d).
Proof.
  unfold decode_flat_record.
  rewrite ascii_text_utf8
    by apply is_printable_is_ascii, is_printable_json_dumps.
  apply read_record_json_dumps.
Qed.

Lemma utf8_printable_bytes (s : string) :
  is_printable s = true ->
  Forall (fun b => (32 <= Byte.to_N b <= 126)%N) (utf8 s).
Proof.
  induction s as [|c s IH]; simpl; [constructor |].
  intros H. apply andb_prop in H. destruct H as [H Hs].
  apply andb_prop in H. destruct H as [Hlo Hhi].
  apply N.leb_le in Hlo, Hhi.
  unfold utf8_char.
  assert (Hc : (N_of_ascii c <? 128)%N = true) by (apply N.ltb_lt; lia).
  rewrite Hc. simpl. constructor; auto.
  rewrite to_N_byte_of_ascii. lia.
Qed.



Lemma codepoint_eq (a b : codepoint) : code a = code b -> a = b.
Proof.
  destruct a as [n Hn], b as [m Hm]. simpl. intros ->.
  f_equal. apply UIP_dec, bool_dec.
Qed.

Lemma code_codepoint_of_N (n : N) :
  (n < 0x110000)%N -> code (codepoint_of_N n) = n.
Proof.
  intros H. apply N.ltb_lt in H. unfold codepoint_of_N.
  generalize (eq_refl (n <? 0x110000)%N).
  generalize ((n <? 0x110000)%N) at 2 3.
  intros b Hb. destruct b; [reflexivity | congruence].
Qed.

Lemma codepoint_of_code (c : codepoint) : codepoint_of_N (code c) = c.
Proof. apply codepoint_eq, code_codepoint_of_N, code_lt. Qed.

Lemma string_app_empty (a : string) : a ++ EmptyString = a.
Proof. induction a as [|x a IH]; simpl; [reflexivity | now rewrite IH]. Qed.

(** What the encoder writes for a character above the tilde. *)
Lemma escape_above_tilde (c : codepoint) :
  (126 < code c)%N ->
  (if ESCAPE_ASCII c then replace c
   else String (ascii_of_N (code c)) EmptyString)
  = if (code c <? 0x10000)%N then
      String backslash ("u" ++ format_04x (code c))
    else
      String backslash
        ("u" ++ format_04x (0xD800 + (code c - 0x10000) / 0x400))
        ++ String backslash
             ("u" ++ format_04x (0xDC00 + (code c - 0x10000) mod 0x400)).
Proof.
  intros H. pose proof (code_lt c) as Hlt.
  unfold ESCAPE_ASCII, replace, ESCAPE_DCT.
  destruct c as [n Hr]. cbn [code] in *.
  case_code n 92%N. case_code n 34%N.
  case_code n 8%N. case_code n 12%N.
  case_code n 10%N. case_code n 13%N.
  case_code n 9%N.
  assert (E1 : (n <? 32)%N = false) by (apply N.ltb_ge; lia).
  assert (E2 : (126 <? n)%N = true) by (now apply N.ltb_lt).
  rewrite E1, E2. cbn [orb].
  destruct (N.ltb_spec n 0x10000); [reflexivity |].
  destruct (@surrogate_units (n - 0x10000)%N) as [-> ->];
    [lia | reflexivity].
Qed.

(** The encoder writes a character as it writes its UTF-16 units. *)
Lemma escape_char_units (c : codepoint) :
  (if ESCAPE_ASCII c then replace c
   else String (ascii_of_N (code c)) EmptyString)
  = units_text (utf16_char c).
Proof.
  unfold utf16_char.
  destruct (N.ltb_spec (code c) 0x10000) as [Hb | Hb].
  - cbn [units_text]. unfold unit_text.
    now rewrite codepoint_of_code, string_app_empty.
  - pose proof (code_lt c) as Hlt.
    rewrite escape_above_tilde by lia.
    assert (E : (code c <? 0x10000)%N = false) by (now apply N.ltb_ge).
    rewrite E. cbn [units_text]. rewrite string_app_empty.
    assert (Hh : ((code c - 0x10000) / 0x400 < 0x400)%N)
      by (apply N.Div0.div_lt_upper_bound; lia).
    assert (Hl : ((code c - 0x10000) mod 0x400 < 0x400)%N)
      by (apply N.mod_lt; discriminate).
    unfold unit_text.
    rewrite !escape_above_tilde
      by (rewrite code_codepoint_of_N; lia_div).
    rewrite !code_codepoint_of_N by lia_div.
    assert (E1 : (0xD800 + (code c - 0x10000) / 0x400 <? 0x10000)%N = true)
      by (apply N.ltb_lt; lia_div).
    assert (E2 : (0xDC00 + (code c - 0x10000) mod 0x400 <? 0x10000)%N = true)
      by (apply N.ltb_lt; lia_div).
    now rewrite E1, E2.
Qed.

Lemma escape_sub_units_text (s : str) : escape_sub s = units_text (utf16 s).
Proof.
  induction s as [|c s IH]; [reflexivity |].
  cbn [escape_sub utf16 flat_map]. rewrite escape_char_units, IH.
  clear IH. induction (utf16_char c) as [|u us IHu]; [reflexivity |].
  cbn [units_text app]. now rewrite string_app_assoc, IHu.
Qed.

(** Strings with the same UTF-16 units are written alike. *)
Lemma escape_sub_units (s1 s2 : str) :
  utf16 s1 = utf16 s2 -> escape_sub s1 = escape_sub s2.
Proof. intros H. now rewrite !escape_sub_units_text, H. Qed.

Lemma utf16_char_text_inj (c1 c2 : codepoint) (t1 t2 : list N) :
  is_scalar c1 = true -> is_scalar c2 = true ->
  (utf16_char c1 ++ t1 = utf16_char c2 ++ t2)%list ->
  c1 = c2 /\ t1 = t2.
Proof.
  unfold is_scalar, utf16_char.
  pose proof (code_lt c1) as B1. pose proof (code_lt c2) as B2.
  intros S1 S2.
  apply orb_prop in S1. apply orb_prop in S2.
  rewrite !N.ltb_lt in S1, S2.
  destruct (N.ltb_spec (code c1) 0x10000) as [L1 | L1];
    destruct (N.ltb_spec (code c2) 0x10000) as [L2 | L2];
    cbn [app]; intros H;
    pose proof (f_equal (hd 0%N) H) as Hh;
    pose proof (f_equal (@tl N) H) as Ht; cbn [hd tl] in Hh, Ht.
  - split; [now apply codepoint_eq | exact Ht].
  - exfalso. clear H Ht. lia_div.
  - exfalso. clear H Ht. lia_div.
  - pose proof (f_equal (hd 0%N) Ht) as Hl.
    pose proof (f_equal (@tl N) Ht) as Ht'. cbn [hd tl] in Hl, Ht'.
    split; [| exact Ht'].
    apply codepoint_eq. clear H Ht Ht'. lia_div.
Qed.

(** Two texts with the same UTF-16 units are the same text. *)
Lemma utf16_text_inj (s1 s2 : str) :
  is_text s1 = true -> is_text s2 = true -> utf16 s1 = utf16 s2 -> s1 = s2.
Proof.
  revert s2. induction s1 as [|c1 s1 IH]; intros s2 T1 T2 H.
  - destruct s2 as [|c2 s2]; [reflexivity |].
    exfalso. simpl in H. unfold utf16_char in H.
    destruct (code c2 <? 0x10000)%N; discriminate.
  - destruct s2 as [|c2 s2].
    + exfalso. simpl in H. unfold utf16_char in H.
      destruct (code c1 <? 0x10000)%N; discriminate.
    + simpl in T1, T2. apply andb_prop in T1, T2.
      destruct T1 as [S1 T1], T2 as [S2 T2].
      cbn [utf16 flat_map] in H.
      destruct (utf16_char_text_inj _ _ _ _ S1 S2 H) as [-> Hrest].
      f_equal. now apply IH.
Qed.

End Payload.

(** ** The apply loop *)

Section Apply.
Import ResourceState.
Local Open Scope list_scope.

(** [_create] builds the request, then calls the stub with it. *)
Lemma Resource__create_wire (resource : Resource) (stub : Stub) (w : World) :
  Resource__create resource stub w
  = match wire_request resource with
    | Ok q => call stub q w
    | Raise e => (Raise e, w)
    end.
Proof.
  destruct resource as [r | r | r | r | r | r | r | r]; try reflexivity.
  - unfold Resource__create, Provider._create, wire_request, bind, lift, rbind.
    destruct (Config_type (Provider.config r)); [| reflexivity].
    destruct (Config_serialize (Provider.config r)); reflexivity.
  - unfold Resource__create, Source._create, wire_request, bind, lift, rbind.
    destruct (SourceDefinition_kwargs (Source.definition r)); reflexivity.
Qed.

Lemma wire_request_name (resource : Resource) (q : request) :
  wire_request resource = Ok q -> exists name, Resource_name resource = Ok name.
Proof.
  destruct resource; simpl; intros H; try discriminate; eexists; reflexivity.
Qed.

(** One turn of the loop on a resource whose call reaches the stub. *)
Lemma create_one_call (resource : Resource) (q : request) (name : string)
  (stub : Stub) (w : World) :
  wire_request resource = Ok q ->
  Resource_name resource = Ok name ->
  create_one resource stub w
  = match stub (calls w) q with
    | None =>
        (Ok tt,
         mkWorld (calls w ++ [q])
           (stdout w ++ ["Creating " ++ " " ++ name]%string))
    | Some (InactiveRpcError _) =>
        (Ok tt, mkWorld (calls w ++ [q]) (stdout w ++ swallowed_lines name))
    | Some e =>
        (Raise e,
         mkWorld (calls w ++ [q])
           (stdout w ++ ["Creating " ++ " " ++ name]%string))
    end.
Proof.
  intros Hq Hn.
  unfold create_one, try_except_InactiveRpcError, bind, lift, print.
  rewrite Hn. cbn [calls stdout].
  rewrite Resource__create_wire, Hq.
  unfold call. cbn [calls stdout].
  destruct (stub (calls w) q) as [[ ] |]; cbn [calls stdout];
    unfold swallowed_lines; rewrite <- ?app_assoc; reflexivity.
Qed.

(** With resources that all have a remote create call and a stub that
    raises nothing but [_InactiveRpcError], the loop returns, and the
    requests it has sent are those of the resources, one each, in the order
    of the list. *)
Lemma create_each_sends_in_order (l : list Resource) (stub : Stub)
  (requests : list request) :
  Forall2 (fun r q => wire_request r = Ok q) l requests ->
  (forall history q e,
      stub history q = Some e -> exists code, e = InactiveRpcError code) ->
  forall w,
    fst (create_each l stub w) = Ok tt /\
    calls (snd (create_each l stub w)) = calls w ++ requests.
Proof.
  intros Hreq Hstub.
  induction Hreq as [|r q l qs Hq _ IH]; intros w.
  - simpl. rewrite app_nil_r. auto.
  - destruct (wire_request_name _ Hq) as [n Hn].
    cbn [create_each]. unfold bind.
    rewrite (@create_one_call r q n stub w Hq Hn).
    destruct (stub (calls w) q) as [e |] eqn:E;
      [destruct (Hstub _ _ _ E) as [code ->] |];
      match goal with
      | |- context [create_each l stub ?w'] =>
          destruct (IH w') as [IH1 IH2]
      end;
      rewrite IH2; cbn [calls]; rewrite <- app_assoc; auto.
Qed.

(** X17.  When every resource of the registry has a remote create call
    and the stub ends every call with the status [ALREADY_EXISTS],
    [create_all] returns without raising; it has sent exactly one request
    per registered resource, that resource's request, in the order of the
    creation list; and for each resource it has printed the line that
    announces the creation and the line that reports the resource as
    already existing. *)
Theorem create_all_swallows_already_exists :
  forall (self : t) (stub : Stub) (requests : list request) (w : World),
    Forall2 (fun r q => wire_request r = Ok q) (__create_list self) requests ->
    (forall history q,
        stub history q = Some (InactiveRpcError ALREADY_EXISTS)) ->
    exists names,
      Forall2 (fun r n => Resource_name r = Ok n) (__create_list self) names /\
      create_all self stub w
      = (Ok tt,
         mkWorld (calls w ++ requests)
           (stdout w ++ List.concat (map swallowed_lines names))).
Proof.
  intros self stub requests w Hreq Hstub.
  unfold create_all. revert w.
  induction Hreq as [|r q l qs Hq _ IH]; intros w.
  - exists []. split; [constructor |].
    simpl. rewrite !app_nil_r. destruct w; reflexivity.
  - destruct (wire_request_name _ Hq) as [n Hn].
    destruct (IH (mkWorld (calls w ++ [q]) (stdout w ++ swallowed_lines n)))
      as (names & Hnames & Hrun).
    exists (n :: names). split; [now constructor |].
    cbn [create_each]. unfold bind at 1.
    rewrite (@create_one_call r q n stub w Hq Hn), Hstub, Hrun.
    cbn [calls stdout map List.concat].
    rewrite <- !app_assoc. reflexivity.
Qed.

(** C5, at a registry with a resource that has no create method.  With
    the user alice and the entity user_id registered and a stub that ends
    every call with the status [ALREADY_EXISTS], [create_all] swallows the
    answer to the request for the user and prints its diagnostic, reaches
    the entity, for which the class defines no [_create], and raises
    [AttributeError] to the caller: it does not complete, and no request is
    sent for the entity. *)
Theorem create_all_already_exists_raises_at_entity :
  create_all (registry_of [alice; user_id]) already_exists_stub new_world
  = (Raise (AttributeError "Entity" "_create"),
     mkWorld [CreateUser (pb.mkUser "alice")]
       ["Creating  alice"; "alice  already exists.";
        "Creating  user_id"]%string).
Proof. reflexivity. Qed.

(** C4, at a registry with a resource that has no create method.  After
    [add] of the user alice and of the entity user_id, [create_all] with a
    stub whose calls all return sends the request for the user, reaches
    the entity, for which the class defines no [_create], and raises
    [AttributeError]: no request is sent for the entity. *)
Theorem create_all_entity_has_no_create :
  create_all (registry_of [alice; user_id]) accepting_stub new_world
  = (Raise (AttributeError "Entity" "_create"),
     mkWorld [CreateUser (pb.mkUser "alice")]
       ["Creating  alice"; "Creating  user_id"]%string).
Proof. reflexivity. Qed.

(** C6, at a stub whose third call ends with a status other than
    [ALREADY_EXISTS].  With five users registered and a third call that
    ends with [_InactiveRpcError] of status [UNAVAILABLE], [create_all]
    reports the third user as already existing, goes on, sends all five
    requests and returns without raising. *)
Theorem create_all_swallows_unavailable :
  create_all (registry_of five_users)
    (third_call_raises (InactiveRpcError UNAVAILABLE)) new_world
  = (Ok tt,
     mkWorld
       [ CreateUser (pb.mkUser "u1"); CreateUser (pb.mkUser "u2");
         CreateUser (pb.mkUser "u3"); CreateUser (pb.mkUser "u4");
         CreateUser (pb.mkUser "u5") ]
       [ "Creating  u1"; "Creating  u2"; "Creating  u3";
         "u3  already exists."; "Creating  u4"; "Creating  u5" ]%string).
Proof. reflexivity. Qed.

(** An exception of a class other than [_InactiveRpcError] raised by the
    third of five calls ends the loop: the fourth and fifth requests are
    not sent and the exception reaches the caller. *)
Lemma create_all_other_exception_aborts (msg : string) :
  create_all (registry_of five_users)
    (third_call_raises (OtherException msg)) new_world
  = (Raise (OtherException msg),
     mkWorld
       [ CreateUser (pb.mkUser "u1"); CreateUser (pb.mkUser "u2");
         CreateUser (pb.mkUser "u3") ]
       [ "Creating  u1"; "Creating  u2"; "Creating  u3" ]%string).
Proof. reflexivity. Qed.

(** C7, the scenario.  After [add] of the user alice, the provider pg with
    a Postgres configuration and the entity user_id, [sorted_list] returns
    the three resources in that order.  [create_all] sends the request for
    the user and then raises, whatever the stub answers: building the
    provider message calls [type] on the configuration, which
    [PostgresConfig] does not define, so neither [CreateProvider] nor a
    request for the entity is sent. *)
Theorem scenario_create_all_stops_at_provider :
  fst (sorted_list (registry_of [alice; pg; user_id]))
  = Ok [alice; pg; user_id] /\
  (create_all (registry_of [alice; pg; user_id]) accepting_stub new_world
   = (Raise (AttributeError "PostgresConfig" "type"),
      mkWorld [CreateUser (pb.mkUser "alice")]
        ["Creating  alice"; "Creating  pg"]%string)) /\
  (forall stub : Stub,
      exists e out,
        create_all (registry_of [alice; pg; user_id]) stub new_world
        = (Raise e, mkWorld [CreateUser (pb.mkUser "alice")] out)).
Proof.
  split; [reflexivity | split; [reflexivity |]].
  intros stub.
  change (registry_of [alice; pg; user_id])
    with (mk [ (("user", "alice")%string, alice);
               (("provider", "pg")%string, pg);
               (("entity", "user_id")%string, user_id) ]
            [alice; pg; user_id]).
  unfold create_all. cbn [__create_list create_each]. unfold bind at 1.
  rewrite (@create_one_call alice (CreateUser (pb.mkUser "alice")) "alice"
             stub new_world eq_refl eq_refl).
  cbn [calls new_world].
  destruct (stub [] (CreateUser (pb.mkUser "alice"))) as [[ ] |];
    eexists; eexists; reflexivity.
Qed.

End Apply.

(** ** The provider message of a Snowflake configuration *)

(** C8.  For every Snowflake configuration, whatever code points its
    fields hold, the payload of [serialize] reads back as a flat record of
    five string members, in this order: Username, Password, Organization,
    Account and Database, each holding the field of the configuration of
    that name, as JSON holds a string: by its UTF-16 code units.
    [Provider._create] on a provider with a Snowflake configuration sends
    [CreateProvider] with that payload in the field [serialized_config].
    [RedisConfig] and [PostgresConfig] define no [serialize]: asking them
    for the payload raises [AttributeError]. *)
Theorem snowflake_payload_is_flat_record :
  (forall c : SnowflakeConfig.t,
      decode_flat_record (SnowflakeConfig.serialize c)
      = Some [ member "Username" (SnowflakeConfig.username c);
               member "Password" (SnowflakeConfig.password c);
               member "Organization" (SnowflakeConfig.organization c);
               member "Account" (SnowflakeConfig.account c);
               member "Database" (SnowflakeConfig.database c) ]) /\
  (forall name function c description team stub w,
      Provider._create
        (Provider.mk name function (Snowflake c) description team) stub w
      = call stub
          (CreateProvider
             (pb.mkProvider name description "SNOWFLAKE_OFFLINE" "Snowflake"
                team (SnowflakeConfig.serialize c))) w) /\
  (forall c,
      Config_serialize (Redis c)
      = Raise (AttributeError "RedisConfig" "serialize")) /\
  (forall c,
      Config_serialize (Postgres c)
      = Raise (AttributeError "PostgresConfig" "serialize")).
Proof.
  repeat split.
  intros c. unfold SnowflakeConfig.serialize.
  apply decode_flat_record_json.
Qed.

(** ** Instances *)

Section Instances.
Import ResourceState.
Local Open Scope list_scope.

Lemma add_redefinition_witness :
  identity_key (feature "f" "v1") = Ok ("feature", "f")%string /\
  dict_contains key_eqb ("feature", "f")%string
    (__state (registry_of [feature "f" "v2"])) = true /\
  add (feature "f" "v1") (registry_of [feature "f" "v2"])
  = (Raise (ResourceRedefinedError
              "feature resource f variant v1 defined in multiple places"),
     registry_of [feature "f" "v2"]).
Proof.
  split; [reflexivity | split; [reflexivity |]].
  exact (@add_redefinition_keeps_registry
           (registry_of [feature "f" "v2"]) (feature "f" "v1")
           "feature" "f" eq_refl eq_refl).
Defined.

Lemma add_distinct_witness :
  let resources := [user_id; feature "f" "v"; alice] in
  let keys :=
    [ ("entity", "user_id"); ("feature", "f"); ("user", "alice") ]%string in
  Forall2 (fun r k => identity_key r = Ok k) resources keys /\
  NoDup keys /\
  fst (add_each resources __init__) = map (fun _ => Ok tt) resources /\
  exists listing sort_keys,
    sorted_list (snd (add_each resources __init__))
    = (Ok listing, snd (add_each resources __init__)) /\
    Permutation resources listing /\
    Forall2 (fun r sk => spec_sort_key r = Some sk) listing sort_keys /\
    StronglySorted sort_key_le sort_keys.
Proof.
  intros resources keys.
  assert (Hkeys : Forall2 (fun r k => identity_key r = Ok k) resources keys)
    by (repeat constructor).
  assert (Hnodup : NoDup keys).
  { repeat constructor; simpl; intuition discriminate. }
  split; [exact Hkeys | split; [exact Hnodup |]].
  exact (@add_distinct_then_sorted_list resources keys Hkeys Hnodup).
Defined.

Lemma create_all_already_exists_witness :
  let self := registry_of [alice; user "bob"] in
  let requests :=
    [ CreateUser (pb.mkUser "alice"); CreateUser (pb.mkUser "bob") ] in
  Forall2 (fun r q => wire_request r = Ok q) (__create_list self) requests /\
  (forall history q,
      already_exists_stub history q
      = Some (InactiveRpcError ALREADY_EXISTS)) /\
  exists names,
    Forall2 (fun r n => Resource_name r = Ok n) (__create_list self) names /\
    create_all self already_exists_stub new_world
    = (Ok tt,
       mkWorld (calls new_world ++ requests)
         (stdout new_world ++ List.concat (map swallowed_lines names))).
Proof.
  intros self requests.
  assert (Hreq : Forall2 (fun r q => wire_request r = Ok q)
                   (__create_list self) requests)
    by (repeat constructor).
  assert (Hstub : forall history q,
             already_exists_stub history q
             = Some (InactiveRpcError ALREADY_EXISTS))
    by reflexivity.
  split; [exact Hreq | split; [exact Hstub |]].
  exact (@create_all_swallows_already_exists
           self already_exists_stub requests new_world Hreq Hstub).
Defined.

End Instances.

(** ** More on [add] *)

Section AddFacts.
Import ResourceState.
Local Open Scope list_scope.

Lemma add_present (resource : Resource) (k : key) (self : t) :
  identity_key resource = Ok k ->
  dict_contains key_eqb k (__state self) = true ->
  exists msg, add resource self = (Raise (ResourceRedefinedError msg), self).
Proof.
  intros Hk Hc. unfold add, bind, lift, get, raise. rewrite Hk, Hc.
  destruct resource; simpl in Hk; try discriminate; eexists; reflexivity.
Qed.

Lemma identity_key_raise (resource : Resource) (e : exn) :
  identity_key resource = Raise e -> e = AttributeError "PrimaryData" "type".
Proof.
  destruct resource; simpl; intros H; inversion H; reflexivity.
Qed.

(** X1.  Whenever [add] raises, whatever the exception, the registry is
    left as it was; and the exception is either [ResourceRedefinedError]
    or the [AttributeError] of a [PrimaryData], which has no [type]. *)
Theorem add_raise_keeps_registry :
  forall (resource : Resource) (self self' : t) (e : exn),
    add resource self = (Raise e, self') ->
    self' = self /\
    ((exists msg, e = ResourceRedefinedError msg) \/
     e = AttributeError "PrimaryData" "type").
Proof.
  intros resource self self' e H.
  destruct (identity_key resource) as [k | e0] eqn:Hk.
  - destruct (dict_contains key_eqb k (__state self)) eqn:Hc.
    + destruct (add_present _ _ Hk Hc) as [msg Hadd].
      rewrite Hadd in H. inversion H; subst. eauto.
    + rewrite (add_fresh _ _ Hk Hc) in H. discriminate.
  - unfold add, bind, lift in H. rewrite Hk in H.
    inversion H; subst. split; [reflexivity | right].
    eapply identity_key_raise; eassumption.
Qed.

Lemma dict_contains_app (k : key) (d1 d2 : dict key Resource) :
  dict_contains key_eqb k (d1 ++ d2)
  = dict_contains key_eqb k d1 || dict_contains key_eqb k d2.
Proof.
  induction d1 as [|[k' v] d1 IH]; simpl; [reflexivity |].
  now rewrite IH, orb_assoc.
Qed.

Lemma key_eqb_refl (k : key) : key_eqb k k = true.
Proof. now apply key_eqb_eq. Qed.

(** X2.  A resource that has a key cannot be added twice: after a first
    [add], whether it returned or raised, a second [add] of the same
    resource raises [ResourceRedefinedError] and changes nothing. *)
Theorem add_twice_raises :
  forall (resource : Resource) (self : t) (k : key),
    identity_key resource = Ok k ->
    exists msg,
      add resource (snd (add resource self))
      = (Raise (ResourceRedefinedError msg), snd (add resource self)).
Proof.
  intros resource self k Hk.
  destruct (dict_contains key_eqb k (__state self)) eqn:Hc.
  - destruct (add_present _ _ Hk Hc) as [msg Hadd].
    rewrite Hadd. simpl. exists msg. exact Hadd.
  - rewrite (add_fresh _ _ Hk Hc). simpl.
    apply (add_present _ _ Hk). simpl.
    rewrite dict_contains_app. simpl.
    rewrite key_eqb_refl. apply orb_true_r.
Qed.

Lemma dict_getitem_app (k : key) (d1 d2 : dict key Resource) :
  dict_getitem key_eqb k (d1 ++ d2)
  = match dict_getitem key_eqb k d1 with
    | Some v => Some v
    | None => dict_getitem key_eqb k d2
    end.
Proof.
  induction d1 as [|[k' v] d1 IH]; simpl; [reflexivity |].
  destruct (key_eqb k k'); auto.
Qed.

Lemma dict_getitem_absent (k : key) (d : dict key Resource) :
  dict_contains key_eqb k d = false -> dict_getitem key_eqb k d = None.
Proof.
  induction d as [|[k' v] d IH]; simpl; [reflexivity |].
  intros H. apply orb_false_iff in H. destruct H as [H1 H2].
  rewrite H1. auto.
Qed.

Lemma key_eqb_neq (k k' : key) : k' <> k -> key_eqb k' k = false.
Proof.
  intros H. destruct (key_eqb k' k) eqn:E; auto.
  apply key_eqb_eq in E. contradiction.
Qed.

(** X3.  After an [add] that found the key absent, looking the key up in
    the map gives the resource, every other key gives what it gave before,
    and the resource is the last element of the creation list. *)
Theorem add_then_lookup :
  forall (resource : Resource) (self : t) (k : key),
    identity_key resource = Ok k ->
    dict_contains key_eqb k (__state self) = false ->
    let self' := snd (add resource self) in
    dict_getitem key_eqb k (__state self') = Some resource /\
    (forall k',
        k' <> k ->
        dict_getitem key_eqb k' (__state self')
        = dict_getitem key_eqb k' (__state self)) /\
    __create_list self' = __create_list self ++ [resource].
Proof.
  intros resource self k Hk Hc self'. unfold self'.
  rewrite (add_fresh _ _ Hk Hc). simpl.
  repeat split.
  - rewrite dict_getitem_app, (dict_getitem_absent _ _ Hc). simpl.
    now rewrite key_eqb_refl.
  - intros k' Hne. rewrite dict_getitem_app. simpl.
    rewrite (key_eqb_neq Hne).
    destruct (dict_getitem key_eqb k' (__state self)); reflexivity.
Qed.

Lemma dict_getitem_present (k : key) (r : Resource) (d : dict key Resource) :
  dict_getitem key_eqb k d = Some r -> dict_contains key_eqb k d = true.
Proof.
  induction d as [|[k' v] d IH]; simpl; [discriminate |].
  destruct (key_eqb k k'); simpl; auto.
Qed.

Lemma add_keeps_entries (resource : Resource) (self : t) (k : key)
  (r : Resource) :
  dict_getitem key_eqb k (__state self) = Some r ->
  dict_getitem key_eqb k (__state (snd (add resource self))) = Some r /\
  exists tail,
    __create_list (snd (add resource self)) = __create_list self ++ tail.
Proof.
  intros H.
  destruct (add_cases resource self) as [(k' & _ & _ & ->) | (e & ->)]; simpl.
  - rewrite dict_getitem_app, H. eauto.
  - split; [exact H | exists []; now rewrite app_nil_r].
Qed.

(** X4.  No run of [add] calls replaces or removes what is registered:
    a key of the map keeps the resource it holds, and the creation list
    only grows at its end. *)
Theorem add_each_keeps_entries :
  forall (resources : list Resource) (self : t) (k : key) (r : Resource),
    dict_getitem key_eqb k (__state self) = Some r ->
    dict_getitem key_eqb k (__state (snd (add_each resources self))) = Some r
    /\ exists tail,
        __create_list (snd (add_each resources self))
        = __create_list self ++ tail.
Proof.
  induction resources as [|x l IH]; intros self k r H; simpl.
  - split; [exact H | exists []; now rewrite app_nil_r].
  - destruct (add_keeps_entries x self k H) as [H1 [tail1 H2]].
    destruct (add x self) as [o self1]. simpl in H1, H2.
    destruct (IH self1 k r H1) as [H3 [tail2 H4]].
    destruct (add_each l self1) as [outs self2]. simpl in *.
    split; [exact H3 |].
    exists (tail1 ++ tail2). rewrite H4, H2, app_assoc. reflexivity.
Qed.

Lemma existsb_key_In (k : key) (seen : list key) :
  existsb (key_eqb k) seen = true <-> In k seen.
Proof.
  rewrite existsb_exists. split.
  - intros [x [Hin Heq]]. apply key_eqb_eq in Heq. now subst.
  - intros Hin. exists k. split; [exact Hin | apply key_eqb_refl].
Qed.

Lemma add_each_first_declarations (l : list Resource) :
  forall (self : t) (seen : list key),
    (forall k, In k seen <-> In k (dict_keys (__state self))) ->
    __create_list (snd (add_each l self))
    = __create_list self ++ first_declarations_from seen l.
Proof.
  induction l as [|x l IH]; intros self seen Hseen; simpl.
  - now rewrite app_nil_r.
  - destruct (identity_key x) as [k | e] eqn:Hk.
    + destruct (existsb (key_eqb k) seen) eqn:Hex.
      * assert (Hc : dict_contains key_eqb k (__state self) = true).
        { apply dict_contains_In, Hseen, existsb_key_In, Hex. }
        destruct (add_present _ _ Hk Hc) as [msg Hadd].
        rewrite Hadd. specialize (IH self seen Hseen).
        destruct (add_each l self) as [outs self2]. exact IH.
      * assert (Hc : dict_contains key_eqb k (__state self) = false).
        { destruct (dict_contains key_eqb k (__state self)) eqn:E; auto.
          apply dict_contains_In, Hseen, existsb_key_In in E. congruence. }
        rewrite (add_fresh _ _ Hk Hc).
        match goal with
        | |- context [add_each l ?s] =>
            specialize (IH s (k :: seen))
        end.
        destruct (add_each l _) as [outs self2]. simpl in *.
        rewrite IH, <- app_assoc; [reflexivity |].
        intros k'. unfold dict_keys. rewrite map_app, in_app_iff. simpl.
        rewrite (Hseen k'). unfold dict_keys. tauto.
    + assert (Hadd : add x self = (Raise e, self)).
      { unfold add, bind, lift. now rewrite Hk. }
      rewrite Hadd. specialize (IH self seen Hseen).
      destruct (add_each l self) as [outs self2]. exact IH.
Qed.

(** X5.  First declaration wins: after a run of [add] calls on a new
    registry, the creation list holds, in order, each resource that has a
    key and whose key no earlier resource of the run had. *)
Theorem create_list_first_declarations :
  forall resources : list Resource,
    __create_list (registry_of resources) = first_declarations resources.
Proof.
  intros resources. unfold registry_of, first_declarations.
  rewrite (add_each_first_declarations resources __init__ []).
  - reflexivity.
  - intros k. simpl. tauto.
Qed.

(** X6.  The table [resource_order] has a priority for the type of every
    resource that [add] accepts: such a resource has a sort key, and
    [to_sort_key] raises only for a [PrimaryData], never [KeyError]. *)
Theorem to_sort_key_covers_registrable :
  forall resource : Resource,
    (exists k sk,
        identity_key resource = Ok k /\ to_sort_key resource = Ok sk) \/
    (identity_key resource = Raise (AttributeError "PrimaryData" "type") /\
     to_sort_key resource = Raise (AttributeError "PrimaryData" "type")).
Proof.
  intros resource.
  destruct resource; [right; split; reflexivity | left ..];
    do 2 eexists; (split; reflexivity).
Qed.

End AddFacts.

(** ** The listing of a registry *)

Section ListingFacts.
Import ResourceState.
Local Open Scope list_scope.

Lemma sort_key_of_spec (r : Resource) (k : key) :
  identity_key r = Ok k -> spec_sort_key r = Some (sort_key_of r).
Proof. destruct r; simpl; intros H; inversion H; reflexivity. Qed.

(** Resources with the same sort key have the same key [(kind, name)]. *)
Lemma sort_key_of_injective (r1 r2 : Resource) (k1 k2 : key) :
  identity_key r1 = Ok k1 -> identity_key r2 = Ok k2 ->
  sort_key_of r1 = sort_key_of r2 -> k1 = k2.
Proof.
  unfold sort_key_of.
  destruct r1, r2; simpl; intros H1 H2 H;
    try discriminate; inversion H1; inversion H2; inversion H;
    subst; try reflexivity; congruence.
Qed.

Lemma Forall2_In_left {B C} (R : B -> C -> Prop) (l : list B) (ks : list C)
  (x : B) :
  Forall2 R l ks -> In x l -> exists k, In k ks /\ R x k.
Proof.
  induction 1 as [|y k l ks Hy _ IH]; intros Hin; [contradiction |].
  destruct Hin as [<- | Hin].
  - exists k. split; [now left | exact Hy].
  - destruct (IH Hin) as [k' [Hk' HR]]. exists k'. split; [now right | auto].
Qed.

Lemma keyed_NoDup_sort_keys (l : list Resource) (ks : list key) :
  Forall2 (fun r k => identity_key r = Ok k) l ks ->
  NoDup ks -> NoDup (map sort_key_of l).
Proof.
  induction 1 as [|r k l ks Hr Hl IH]; intros Hn; simpl; [constructor |].
  inversion Hn as [|? ? Hk Hn']; subst.
  constructor; auto.
  intros Hin. apply in_map_iff in Hin. destruct Hin as [r' [Heq Hin]].
  destruct (@Forall2_In_left _ _ _ _ _ _ Hl Hin) as [k' [Hk' Hr']].
  assert (k' = k) by (eapply sort_key_of_injective; eassumption).
  subst. contradiction.
Qed.

Lemma sorted_le_NoDup_lt (l : list sort_key) :
  StronglySorted sort_key_le l -> NoDup l -> StronglySorted sort_key_lt l.
Proof.
  induction 1 as [|x l Hs IH Hx]; intros Hn; constructor;
    inversion Hn as [|? ? Hin Hn']; subst; auto.
  rewrite Forall_forall in *. intros y Hy.
  destruct (Hx y Hy) as [Hlt | Heq]; [exact Hlt |].
  subst. contradiction.
Qed.

Lemma sorted_map_listed (l : list Resource) :
  StronglySorted sort_key_lt (map sort_key_of l) ->
  StronglySorted listed_before l.
Proof.
  induction l as [|x l IH]; simpl; intros H; [constructor |].
  inversion H as [|? ? Hs Hx]; subst. constructor; auto.
  rewrite Forall_map in Hx. exact Hx.
Qed.

Lemma keyed_sort_keys (l : list Resource) (ks : list sort_key) :
  Forall2 (fun r sk => to_sort_key r = Ok sk) l ks ->
  ks = map sort_key_of l /\
  Forall (fun r => spec_sort_key r = Some (sort_key_of r)) l.
Proof.
  induction 1 as [|r sk l ks Hr _ [IH1 IH2]]; simpl; [split; constructor |].
  apply to_sort_key_iff in Hr.
  assert (Hsk : sort_key_of r = sk) by (unfold sort_key_of; now rewrite Hr).
  split; [now rewrite Hsk, IH1 | constructor; auto].
  now rewrite Hsk.
Qed.

(** On a registry that satisfies the invariant, [sorted_list] returns, and
    the listing is a permutation of the creation list in strictly
    increasing order of sort key. *)
Lemma sorted_list_strict (self : t) :
  registry_inv self ->
  exists listing,
    sorted_list self = (Ok listing, self) /\
    Permutation (__create_list self) listing /\
    StronglySorted listed_before listing /\
    Forall (fun r => spec_sort_key r = Some (sort_key_of r)) listing.
Proof.
  intros [Hv Hk Hn].
  destruct (spec_sort_keys_defined Hk) as [sks Hsks].
  destruct (sorted_spec to_sort_key Hsks)
    as (listing & sort_keys & Hs & Hp & Hkeys & Ho).
  destruct (keyed_sort_keys Hkeys) as [-> Hspec].
  exists listing.
  unfold sorted_list, bind, get, lift. rewrite Hs, Hv.
  repeat split; auto.
  apply sorted_map_listed, sorted_le_NoDup_lt; [exact Ho |].
  eapply Permutation_NoDup;
    [apply Permutation_map; exact Hp | eapply keyed_NoDup_sort_keys; eauto].
Qed.

Lemma registry_of_inv (resources : list Resource) :
  registry_inv (registry_of resources).
Proof. apply add_each_inv, registry_inv_init. Qed.

(** X7.  On the registry that any run of [add] calls leaves, [sorted_list]
    returns without raising; the listing is a permutation of the creation
    list, every element has a sort key, and the sort keys are strictly
    increasing: no two registered resources tie. *)
Theorem sorted_list_of_registry :
  forall resources : list Resource,
    let self := registry_of resources in
    exists listing,
      sorted_list self = (Ok listing, self) /\
      Permutation (__create_list self) listing /\
      StronglySorted listed_before listing /\
      Forall (fun r => spec_sort_key r = Some (sort_key_of r)) listing.
Proof.
  intros resources self. apply sorted_list_strict, registry_of_inv.
Qed.

Lemma listed_before_irrefl (a : Resource) : ~ listed_before a a.
Proof. apply sort_key_lt_irrefl. Qed.

Lemma listed_before_trans (a b c : Resource) :
  listed_before a b -> listed_before b c -> listed_before a c.
Proof. apply sort_key_lt_trans. Qed.

Lemma strictly_sorted_unique (l1 l2 : list Resource) :
  Permutation l1 l2 ->
  StronglySorted listed_before l1 -> StronglySorted listed_before l2 ->
  l1 = l2.
Proof.
  revert l2. induction l1 as [|a l1 IH]; intros l2 Hp H1 H2.
  - apply Permutation_nil in Hp. now subst.
  - destruct l2 as [|b l2].
    + apply Permutation_sym, Permutation_nil in Hp. discriminate.
    + inversion H1 as [|? ? Hs1 Ha]; subst.
      inversion H2 as [|? ? Hs2 Hb]; subst.
      assert (Hab : a = b).
      { assert (Hina : In a (b :: l2))
          by (eapply Permutation_in; [exact Hp | now left]).
        assert (Hinb : In b (a :: l1))
          by (eapply Permutation_in;
              [apply Permutation_sym; exact Hp | now left]).
        destruct Hina as [-> | Hina]; [reflexivity |].
        destruct Hinb as [-> | Hinb]; [reflexivity |].
        rewrite Forall_forall in Ha, Hb.
        exfalso. apply (@listed_before_irrefl a).
        eapply listed_before_trans; [apply Ha | apply Hb]; assumption. }
      subst. f_equal. apply IH; auto.
      eapply Permutation_cons_inv; exact Hp.
Qed.

(** X8.  The listing does not depend on the order of the [add] calls: two
    runs that leave the same resources registered, in whatever order,
    have the same [sorted_list]. *)
Theorem sorted_list_order_independent :
  forall resources1 resources2 : list Resource,
    Permutation (__create_list (registry_of resources1))
                (__create_list (registry_of resources2)) ->
    fst (sorted_list (registry_of resources1))
    = fst (sorted_list (registry_of resources2)).
Proof.
  intros rs1 rs2 Hp.
  destruct (sorted_list_strict (registry_of_inv rs1))
    as (l1 & -> & Hp1 & Hs1 & _).
  destruct (sorted_list_strict (registry_of_inv rs2))
    as (l2 & -> & Hp2 & Hs2 & _).
  simpl. f_equal. apply strictly_sorted_unique; auto.
  eapply Permutation_trans; [apply Permutation_sym; exact Hp1 |].
  eapply Permutation_trans; [exact Hp | exact Hp2].
Qed.

End ListingFacts.

(** ** More on the apply loop *)

Section ApplyFacts.
Import ResourceState.
Local Open Scope list_scope.

Lemma creatable_wire_request (resource : Resource) :
  if creatable resource then exists q, wire_request resource = Ok q
  else exists cls attr, wire_request resource = Raise (AttributeError cls attr).
Proof.
  destruct resource as [r | r | r | r | r | r | r | r]; simpl;
    try (do 2 eexists; reflexivity); try (eexists; reflexivity).
  - destruct (Provider.config r); simpl;
      try (do 2 eexists; reflexivity); eexists; reflexivity.
  - destruct (Source.definition r); simpl;
      try (do 2 eexists; reflexivity); eexists; reflexivity.
Qed.

(** X9.  [_create] reaches the stub, with exactly one request, for a user,
    a provider with a Snowflake configuration and a source whose
    definition is a [PrimaryData] or a [SQLTransformation]; for every other
    resource it raises [AttributeError] and sends nothing. *)
Theorem create_reaches_stub_iff_creatable :
  forall (resource : Resource) (stub : Stub) (w : World),
    if creatable resource then
      exists q,
        wire_request resource = Ok q /\
        Resource__create resource stub w = call stub q w /\
        calls (snd (Resource__create resource stub w)) = calls w ++ [q]
    else
      exists cls attr,
        Resource__create resource stub w = (Raise (AttributeError cls attr), w).
Proof.
  intros resource stub w.
  pose proof (creatable_wire_request resource) as H.
  rewrite Resource__create_wire.
  destruct (creatable resource).
  - destruct H as [q Hq]. exists q. rewrite Hq. auto.
  - destruct H as (cls & attr & Hq). exists cls, attr. now rewrite Hq.
Qed.

Lemma create_each_cons (r : Resource) (l : list Resource) (stub : Stub)
  (w : World) :
  create_each (r :: l) stub w
  = match create_one r stub w with
    | (Ok _, w') => create_each l stub w'
    | (Raise e, w') => (Raise e, w')
    end.
Proof. reflexivity. Qed.

(** One turn of the loop on a resource whose call does not reach the stub:
    the turn raises and sends nothing. *)
Lemma create_one_no_call (r : Resource) (e : exn) (stub : Stub) (w : World) :
  wire_request r = Raise e ->
  exists e',
    fst (create_one r stub w) = Raise e' /\
    calls (snd (create_one r stub w)) = calls w.
Proof.
  intros H.
  assert (He : exists cls attr, e = AttributeError cls attr).
  { pose proof (creatable_wire_request r) as Hc.
    destruct (creatable r).
    - destruct Hc as [q Hq]. congruence.
    - destruct Hc as (cls & attr & Hq). exists cls, attr. congruence. }
  destruct He as (cls & attr & ->).
  destruct (Resource_name r) as [n | en] eqn:Hn.
  - unfold create_one, try_except_InactiveRpcError, bind, lift, print.
    rewrite Hn. cbn [calls stdout]. rewrite Resource__create_wire, H.
    eexists. split; reflexivity.
  - destruct r; simpl in Hn; try discriminate.
    eexists. split; reflexivity.
Qed.

(** X10.  Whatever the registry and the stub, the requests [create_all]
    sends follow the creation list position by position: the i-th request
    sent is the request of the i-th registered resource.  No request is
    sent twice, out of order, or for a resource after one that was
    skipped. *)
Theorem create_all_calls_follow_creation_list :
  forall (self : t) (stub : Stub) (w : World),
    exists sent,
      calls (snd (create_all self stub w)) = calls w ++ sent /\
      Forall2 (fun r q => wire_request r = Ok q)
        (firstn (List.length sent) (__create_list self)) sent.
Proof.
  intros self stub. unfold create_all.
  induction (__create_list self) as [|r l IH]; intros w.
  - exists []. simpl. rewrite app_nil_r. split; [reflexivity | constructor].
  - rewrite create_each_cons.
    destruct (wire_request r) as [q | e] eqn:Hq.
    + destruct (wire_request_name _ Hq) as [n Hn].
      rewrite (@create_one_call r q n stub w Hq Hn).
      destruct (stub (calls w) q) as [e |].
      * destruct e;
          try (exists [q]; simpl; split;
               [reflexivity | repeat constructor; exact Hq]).
        match goal with
        | |- context [create_each l stub ?w'] =>
            destruct (IH w') as [sent [Hc Hf]]
        end.
        exists (q :: sent). rewrite Hc. cbn [calls].
        rewrite <- app_assoc. split; [reflexivity |].
        simpl. constructor; auto.
      * match goal with
        | |- context [create_each l stub ?w'] =>
            destruct (IH w') as [sent [Hc Hf]]
        end.
        exists (q :: sent). rewrite Hc. cbn [calls].
        rewrite <- app_assoc. split; [reflexivity |].
        simpl. constructor; auto.
    + destruct (@create_one_no_call r e stub w Hq) as [e' [Hr Hc]].
      destruct (create_one r stub w) as [[u | e1] w1]; simpl in *;
        [discriminate |].
      exists []. rewrite app_nil_r. split; [exact Hc | constructor].
Qed.

(** The turns of the loop over resources whose calls the stub lets pass. *)
Lemma create_each_prefix (l1 : list Resource) (qs1 : list request)
  (stub : Stub) :
  Forall2 (fun r q => wire_request r = Ok q) l1 qs1 ->
  forall w,
    (forall p q s, qs1 = p ++ q :: s -> swallowed (stub (calls w ++ p) q)) ->
    exists w1,
      calls w1 = calls w ++ qs1 /\
      forall rest,
        create_each (l1 ++ rest) stub w = create_each rest stub w1.
Proof.
  induction 1 as [|r q l qs Hq _ IH]; intros w Hsw.
  - exists w. rewrite app_nil_r. auto.
  - destruct (wire_request_name _ Hq) as [n Hn].
    pose proof (Hsw [] q qs eq_refl) as Hfirst.
    rewrite app_nil_r in Hfirst.
    assert (Hstep : exists w',
               create_one r stub w = (Ok tt, w') /\
               calls w' = calls w ++ [q]).
    { rewrite (@create_one_call r q n stub w Hq Hn).
      destruct (stub (calls w) q) as [[ ] |]; simpl in Hfirst;
        try discriminate; eexists; split; reflexivity. }
    destruct Hstep as (w' & Hone & Hcalls).
    destruct (IH w') as (w1 & Hc1 & Hrest).
    { intros p q' s Heq. rewrite Hcalls, <- app_assoc. simpl.
      apply (Hsw (q :: p) q' s). simpl. now rewrite Heq. }
    exists w1. split.
    + rewrite Hc1, Hcalls, <- app_assoc. reflexivity.
    + intros rest. simpl app. rewrite create_each_cons, Hone. apply Hrest.
Qed.

(** X11.  An exception of a class other than [_InactiveRpcError] ends the
    loop.  When the stub lets the calls of the resources before [r] pass
    and answers the call of [r] with such an exception, [create_all] raises
    that exception, having sent the requests up to that of [r] and none
    for the resources after it. *)
Theorem create_all_aborts_on_other_exception :
  forall (self : t) (stub : Stub) (w : World)
         (l1 l2 : list Resource) (r : Resource)
         (qs1 : list request) (q : request) (e : exn),
    __create_list self = l1 ++ r :: l2 ->
    Forall2 (fun r q => wire_request r = Ok q) l1 qs1 ->
    wire_request r = Ok q ->
    (forall p q' s,
        qs1 = p ++ q' :: s -> swallowed (stub (calls w ++ p) q')) ->
    stub (calls w ++ qs1) q = Some e ->
    is_InactiveRpcError e = false ->
    fst (create_all self stub w) = Raise e /\
    calls (snd (create_all self stub w)) = calls w ++ qs1 ++ [q].
Proof.
  intros self stub w l1 l2 r qs1 q e Hl Hreq Hq Hsw Hstub He.
  unfold create_all. rewrite Hl.
  destruct (@create_each_prefix l1 qs1 stub Hreq w Hsw) as (w1 & Hc1 & Hrest).
  rewrite Hrest, create_each_cons.
  destruct (wire_request_name _ Hq) as [n Hn].
  rewrite (@create_one_call r q n stub w1 Hq Hn), Hc1, Hstub.
  destruct e; simpl in He; try discriminate; simpl;
    rewrite <- app_assoc; auto.
Qed.

(** X12.  A resource whose [_create] does not reach the stub ends the loop
    as well.  When the stub lets the calls of the resources before [r]
    pass and [r] has no request to send, [create_all] raises, having sent
    the requests of the resources before [r] and nothing else. *)
Theorem create_all_stops_at_uncreatable :
  forall (self : t) (stub : Stub) (w : World)
         (l1 l2 : list Resource) (r : Resource)
         (qs1 : list request) (e : exn),
    __create_list self = l1 ++ r :: l2 ->
    Forall2 (fun r q => wire_request r = Ok q) l1 qs1 ->
    wire_request r = Raise e ->
    (forall p q' s,
        qs1 = p ++ q' :: s -> swallowed (stub (calls w ++ p) q')) ->
    (exists e', fst (create_all self stub w) = Raise e') /\
    calls (snd (create_all self stub w)) = calls w ++ qs1.
Proof.
  intros self stub w l1 l2 r qs1 e Hl Hreq Hq Hsw.
  unfold create_all. rewrite Hl.
  destruct (@create_each_prefix l1 qs1 stub Hreq w Hsw) as (w1 & Hc1 & Hrest).
  rewrite Hrest, create_each_cons.
  destruct (@create_one_no_call r e stub w1 Hq) as [e' [Hr Hc]].
  destruct (create_one r stub w1) as [[u | e1] w2]; simpl in *;
    [discriminate |].
  split; [eauto | congruence].
Qed.

(** X13.  With a registry whose resources all have a request to send and
    a stub that raises nothing but [_InactiveRpcError], [create_all]
    returns and has sent the request of every registered resource, once,
    in the order of the creation list. *)
Theorem create_all_sends_every_request :
  forall (self : t) (stub : Stub) (requests : list request) (w : World),
    Forall2 (fun r q => wire_request r = Ok q) (__create_list self) requests ->
    (forall history q e,
        stub history q = Some e -> exists code, e = InactiveRpcError code) ->
    fst (create_all self stub w) = Ok tt /\
    calls (snd (create_all self stub w)) = calls w ++ requests.
Proof.
  intros self stub requests w Hreq Hstub.
  unfold create_all. now apply create_each_sends_in_order.
Qed.

End ApplyFacts.

(** ** More on construction and on the payload *)

(** X14.  The checks of the constructor of [TrainingSet] run in a fixed
    order, and the first that fails gives the message: an invalid label is
    reported whatever the features are; with a valid label, an empty list
    of features is reported next; only then an invalid feature. *)
Theorem TrainingSet_new_error_precedence :
  forall name variant owner label features description,
    let object :=
      TrainingSet.new name variant owner label features description in
    (empty_component label ->
     object = Raise (ValueError "Label must be set")) /\
    (~ empty_component label -> features = [] ->
     object
     = Raise (ValueError "A training-set must have atleast one feature")) /\
    (~ empty_component label -> features <> [] ->
     Exists empty_component features ->
     object = Raise (ValueError "Invalid Feature")).
Proof.
  intros name variant owner label features description object.
  unfold object, TrainingSet.new, TrainingSet.__post_init__. simpl.
  repeat split.
  - intros Hl. apply valid_name_variant_false in Hl. now rewrite Hl.
  - intros Hl ->. apply valid_name_variant_true in Hl. now rewrite Hl.
  - intros Hl Hne Hex. apply valid_name_variant_true in Hl. rewrite Hl.
    destruct features as [|f fs]; [congruence |].
    cbn [negb List.length Nat.eqb].
    destruct (check_features_cases (f :: fs)) as [[_ Hr] | [Hall _]].
    + now rewrite Hr.
    + exfalso. eapply Exists_not_Forall; eassumption.
Qed.

(** X15.  The payload of a Snowflake configuration holds the UTF-16 code
    units of its user name, password, organization, account and database,
    and nothing else: two configurations have the same payload exactly
    when these five fields have the same code units, and, when the fields
    hold no surrogate code point, exactly when the five fields are equal.
    The schema is not part of the payload. *)
Theorem serialize_determines_connection :
  (forall c1 c2 : SnowflakeConfig.t,
      SnowflakeConfig.serialize c1 = SnowflakeConfig.serialize c2 <->
      (utf16 (SnowflakeConfig.username c1)
       = utf16 (SnowflakeConfig.username c2) /\
       utf16 (SnowflakeConfig.password c1)
       = utf16 (SnowflakeConfig.password c2) /\
       utf16 (SnowflakeConfig.organization c1)
       = utf16 (SnowflakeConfig.organization c2) /\
       utf16 (SnowflakeConfig.account c1)
       = utf16 (SnowflakeConfig.account c2) /\
       utf16 (SnowflakeConfig.database c1)
       = utf16 (SnowflakeConfig.database c2))) /\
  (forall c1 c2 : SnowflakeConfig.t,
      connection_is_text c1 = true -> connection_is_text c2 = true ->
      (SnowflakeConfig.serialize c1 = SnowflakeConfig.serialize c2 <->
       (SnowflakeConfig.username c1 = SnowflakeConfig.username c2 /\
        SnowflakeConfig.password c1 = SnowflakeConfig.password c2 /\
        SnowflakeConfig.organization c1 = SnowflakeConfig.organization c2 /\
        SnowflakeConfig.account c1 = SnowflakeConfig.account c2 /\
        SnowflakeConfig.database c1 = SnowflakeConfig.database c2))).
Proof.
  assert (Hunits : forall c1 c2 : SnowflakeConfig.t,
             SnowflakeConfig.serialize c1 = SnowflakeConfig.serialize c2 ->
             utf16 (SnowflakeConfig.username c1)
             = utf16 (SnowflakeConfig.username c2) /\
             utf16 (SnowflakeConfig.password c1)
             = utf16 (SnowflakeConfig.password c2) /\
             utf16 (SnowflakeConfig.organization c1)
             = utf16 (SnowflakeConfig.organization c2) /\
             utf16 (SnowflakeConfig.account c1)
             = utf16 (SnowflakeConfig.account c2) /\
             utf16 (SnowflakeConfig.database c1)
             = utf16 (SnowflakeConfig.database c2)).
  { intros c1 c2 H. unfold SnowflakeConfig.serialize in H.
    apply (f_equal decode_flat_record) in H.
    rewrite !decode_flat_record_json in H.
    unfold SnowflakeConfig.config, units_of_items in H.
    cbn [map fst snd] in H.
    injection H as Hu Hp Ho Ha Hd. auto. }
  split.
  - intros c1 c2. split; [apply Hunits |].
    intros (Hu & Hp & Ho & Ha & Hd).
    unfold SnowflakeConfig.serialize. f_equal.
    unfold json_dumps, SnowflakeConfig.config. cbn [map join].
    unfold json_item, py_encode_basestring_ascii. cbn [fst snd].
    now rewrite (escape_sub_units _ _ Hu), (escape_sub_units _ _ Hp),
                (escape_sub_units _ _ Ho), (escape_sub_units _ _ Ha),
                (escape_sub_units _ _ Hd).
  - intros c1 c2 T1 T2. unfold connection_is_text in T1, T2.
    repeat (apply andb_prop in T1; destruct T1 as [T1 ?]).
    repeat (apply andb_prop in T2; destruct T2 as [T2 ?]).
    split.
    + intros Hser.
      destruct (Hunits c1 c2 Hser) as (Hu & Hp & Ho & Ha & Hd).
      repeat split; apply utf16_text_inj; assumption.
    + intros (Hu & Hp & Ho & Ha & Hd).
      unfold SnowflakeConfig.serialize, SnowflakeConfig.config.
      now rewrite Hu, Hp, Ho, Ha, Hd.
Qed.

(** Two passwords that differ and give the same payload: a surrogate pair
    written as two code points, and the code point the pair stands for. *)
Example serialize_joins_surrogate_pair :
  config_with_password [0xd83d; 0xde00]%N
  <> config_with_password [0x1f600]%N /\
  SnowflakeConfig.serialize (config_with_password [0xd83d; 0xde00]%N)
  = SnowflakeConfig.serialize (config_with_password [0x1f600]%N).
Proof.
  split; [| vm_compute; reflexivity].
  intros H. apply (f_equal SnowflakeConfig.password) in H.
  apply (f_equal (@List.length codepoint)) in H. discriminate.
Qed.

(** X16.  Every byte of the payload of a Snowflake configuration is a
    printable ASCII character, between space and tilde, whatever code
    points the fields hold: every other character is written as an
    escape. *)
Theorem serialize_is_ascii :
  forall c : SnowflakeConfig.t,
    Forall (fun b => (32 <= Byte.to_N b <= 126)%N)
      (SnowflakeConfig.serialize c).
Proof.
  intros c. apply utf8_printable_bytes, is_printable_json_dumps.
Qed.

(** ** Instances of the further properties *)

Section MoreInstances.
Import ResourceState.
Local Open Scope list_scope.

Lemma add_raise_keeps_registry_witness :
  add orders __init__ = (Raise (AttributeError "PrimaryData" "type"), __init__)
  /\ __init__ = __init__
  /\ ((exists msg, AttributeError "PrimaryData" "type"
                   = ResourceRedefinedError msg) \/
      AttributeError "PrimaryData" "type"
      = AttributeError "PrimaryData" "type").
Proof.
  split; [reflexivity |].
  exact (@add_raise_keeps_registry orders __init__ __init__
           (AttributeError "PrimaryData" "type") eq_refl).
Defined.

Lemma add_twice_raises_witness :
  identity_key alice = Ok ("user", "alice")%string /\
  exists msg,
    add alice (snd (add alice __init__))
    = (Raise (ResourceRedefinedError msg), snd (add alice __init__)).
Proof.
  split; [reflexivity |].
  exact (@add_twice_raises alice __init__ ("user", "alice")%string eq_refl).
Defined.

Lemma add_then_lookup_witness :
  identity_key alice = Ok ("user", "alice")%string /\
  dict_contains key_eqb ("user", "alice")%string (__state __init__) = false /\
  dict_getitem key_eqb ("user", "alice")%string
    (__state (snd (add alice __init__))) = Some alice /\
  (forall k',
      k' <> ("user", "alice")%string ->
      dict_getitem key_eqb k' (__state (snd (add alice __init__)))
      = dict_getitem key_eqb k' (__state __init__)) /\
  __create_list (snd (add alice __init__)) = __create_list __init__ ++ [alice].
Proof.
  split; [reflexivity | split; [reflexivity |]].
  exact (@add_then_lookup alice __init__ ("user", "alice")%string
           eq_refl eq_refl).
Defined.

Lemma add_each_keeps_entries_witness :
  dict_getitem key_eqb ("user", "alice")%string
    (__state (registry_of [alice])) = Some alice /\
  dict_getitem key_eqb ("user", "alice")%string
    (__state (snd (add_each [user_id; alice] (registry_of [alice]))))
  = Some alice /\
  exists tail,
    __create_list (snd (add_each [user_id; alice] (registry_of [alice])))
    = __create_list (registry_of [alice]) ++ tail.
Proof.
  split; [reflexivity |].
  exact (@add_each_keeps_entries [user_id; alice] (registry_of [alice])
           ("user", "alice")%string alice eq_refl).
Defined.

Lemma sorted_list_order_independent_witness :
  Permutation (__create_list (registry_of [user_id; alice]))
              (__create_list (registry_of [alice; user_id])) /\
  fst (sorted_list (registry_of [user_id; alice]))
  = fst (sorted_list (registry_of [alice; user_id])).
Proof.
  assert (Hp : Permutation (__create_list (registry_of [user_id; alice]))
                 (__create_list (registry_of [alice; user_id])))
    by exact (perm_swap alice user_id []).
  split; [exact Hp |].
  exact (@sorted_list_order_independent [user_id; alice] [alice; user_id] Hp).
Defined.

Lemma create_all_aborts_witness :
  let self := registry_of five_users in
  let stub := third_call_raises (OtherException "unreachable host") in
  let qs1 := [ CreateUser (pb.mkUser "u1"); CreateUser (pb.mkUser "u2") ] in
  let q := CreateUser (pb.mkUser "u3") in
  __create_list self = [user "u1"; user "u2"] ++ user "u3"
                         :: [user "u4"; user "u5"] /\
  Forall2 (fun r q => wire_request r = Ok q) [user "u1"; user "u2"] qs1 /\
  wire_request (user "u3") = Ok q /\
  (forall p q' s,
      qs1 = p ++ q' :: s -> swallowed (stub (calls new_world ++ p) q')) /\
  stub (calls new_world ++ qs1) q = Some (OtherException "unreachable host") /\
  is_InactiveRpcError (OtherException "unreachable host") = false /\
  fst (create_all self stub new_world)
  = Raise (OtherException "unreachable host") /\
  calls (snd (create_all self stub new_world))
  = calls new_world ++ qs1 ++ [q].
Proof.
  intros self stub qs1 q.
  assert (Hl : __create_list self
               = [user "u1"; user "u2"] ++ user "u3"
                   :: [user "u4"; user "u5"]) by reflexivity.
  assert (Hreq : Forall2 (fun r q => wire_request r = Ok q)
                   [user "u1"; user "u2"] qs1) by (repeat constructor).
  assert (Hsw : forall p q' s,
             qs1 = p ++ q' :: s ->
             swallowed (stub (calls new_world ++ p) q')).
  { intros p q' s Heq.
    destruct p as [|a [|b p]]; [exact I | exact I |].
    inversion Heq as [[Ha Hb Hnil]]. destruct p; discriminate. }
  do 6 (split; [first [exact Hl | exact Hreq | exact Hsw | reflexivity] |]).
  exact (@create_all_aborts_on_other_exception self stub new_world
           [user "u1"; user "u2"] [user "u4"; user "u5"] (user "u3")
           qs1 q (OtherException "unreachable host")
           Hl Hreq eq_refl Hsw eq_refl eq_refl).
Defined.

Lemma create_all_stops_at_uncreatable_witness :
  let self := registry_of [alice; user_id] in
  let qs1 := [ CreateUser (pb.mkUser "alice") ] in
  __create_list self = [alice] ++ user_id :: [] /\
  Forall2 (fun r q => wire_request r = Ok q) [alice] qs1 /\
  wire_request user_id = Raise (AttributeError "Entity" "_create") /\
  (forall p q' s,
      qs1 = p ++ q' :: s ->
      swallowed (accepting_stub (calls new_world ++ p) q')) /\
  (exists e', fst (create_all self accepting_stub new_world) = Raise e') /\
  calls (snd (create_all self accepting_stub new_world))
  = calls new_world ++ qs1.
Proof.
  intros self qs1.
  assert (Hl : __create_list self = [alice] ++ user_id :: [])
    by reflexivity.
  assert (Hreq : Forall2 (fun r q => wire_request r = Ok q) [alice] qs1)
    by (repeat constructor).
  assert (Hsw : forall p q' s,
             qs1 = p ++ q' :: s ->
             swallowed (accepting_stub (calls new_world ++ p) q'))
    by (intros; exact I).
  do 4 (split; [first [exact Hl | exact Hreq | exact Hsw | reflexivity] |]).
  exact (@create_all_stops_at_uncreatable self accepting_stub new_world
           [alice] [] user_id qs1 (AttributeError "Entity" "_create")
           Hl Hreq eq_refl Hsw).
Defined.

Lemma create_all_sends_every_request_witness :
  Forall2 (fun r q => wire_request r = Ok q)
    (__create_list (registry_of five_users)) five_requests /\
  (forall history q e,
      accepting_stub history q = Some e ->
      exists code, e = InactiveRpcError code) /\
  fst (create_all (registry_of five_users) accepting_stub new_world) = Ok tt /\
  calls (snd (create_all (registry_of five_users) accepting_stub new_world))
  = calls new_world ++ five_requests.
Proof.
  assert (Hreq : Forall2 (fun r q => wire_request r = Ok q)
                   (__create_list (registry_of five_users)) five_requests)
    by (repeat constructor).
  assert (Hstub : forall history q e,
             accepting_stub history q = Some e ->
             exists code, e = InactiveRpcError code)
    by (intros history q e H; discriminate H).
  split; [exact Hreq | split; [exact Hstub |]].
  exact (@create_all_sends_every_request (registry_of five_users)
           accepting_stub five_requests new_world Hreq Hstub).
Defined.

End MoreInstances.
